(** * birb: package-source helpers (src/birb.cpp)

    A shallow embedding of the helper layer of the birb package manager:
    [pkg_source::is_valid], [birb::get_pkg_sources], [birb::locate_pkg_repo],
    [birb::split_string], [birb::read_file] and [birb::read_pkg_variable].

    Conventions of the embedding
    - [std::string] is [string]; positions and lengths are [size_t] values,
      modelled in [N] with the 64-bit wrap-around written out;
    - a call ends in an [outcome]: it returns, an exception escapes, the
      process exits, or the behaviour is undefined;
    - the file system is a parameter: what [stat] reports for a path and what
      an input stream opened on a path delivers;
    - the process-wide [var_cache] is threaded explicitly, as a finite map. *)

From Stdlib Require Import Ascii NArith ZArith Lia.
From Stdlib Require String.
From stdpp Require Import base option list gmap strings.

(** ** Outcomes of a call *)

Inductive exception : Type :=
| out_of_range          (* [std::out_of_range], from the string members *)
| filesystem_error.     (* [std::filesystem::filesystem_error] *)

Inductive outcome (A : Type) : Type :=
| Returned (a : A)          (* normal return *)
| Thrown (e : exception)    (* an exception leaves the function *)
| Exited (status : Z)       (* [exit(status)] was called *)
| Undefined                 (* undefined behaviour was reached *)
| NoFuel.                   (* the loop budget of the model ran out *)

Arguments Returned {A} a.
Arguments Thrown {A} e.
Arguments Exited {A} status.
Arguments Undefined {A}.
Arguments NoFuel {A}.

#[global] Instance outcome_ret : MRet outcome := fun _ a => Returned a.

#[global] Instance outcome_bind : MBind outcome := fun _ _ k m =>
  match m with
  | Returned a => k a
  | Thrown e => Thrown e
  | Exited st => Exited st
  | Undefined => Undefined
  | NoFuel => NoFuel
  end.

(** ** [size_t] arithmetic *)

Module SizeT.

Definition modulus : N := 2 ^ 64.

(** [std::string::npos], the largest [size_t]. *)
Definition npos : N := modulus - 1.

Definition add (a b : N) : N := ((a + b) mod modulus)%N.

Definition sub (a b : N) : N :=
  Z.to_N ((Z.of_N a - Z.of_N b) mod Z.of_N modulus).

End SizeT.

(** ** [std::string] primitives *)

Definition dquote : ascii := "034"%char.
Definition newline : ascii := "010"%char.
Definition hash : ascii := "#"%char.

Definition size (s : string) : N := N.of_nat (String.length s).

Definition empty (s : string) : bool :=
  match s with
  | EmptyString => true
  | String _ _ => false
  end.

Fixpoint str_take (n : nat) (s : string) : string :=
  match n, s with
  | S n', String c s' => String c (str_take n' s')
  | _, _ => EmptyString
  end.

Fixpoint str_drop (n : nat) (s : string) : string :=
  match n, s with
  | S n', String _ s' => str_drop n' s'
  | _, _ => s
  end.

(** [s.substr(pos, n)]: throws when [pos > size()], otherwise the characters
    [pos .. pos + min(n, size() - pos)). *)
Definition substr (s : string) (pos n : N) : outcome string :=
  if (size s <? pos)%N then Thrown out_of_range
  else Returned (str_take (N.to_nat (N.min n (size s - pos)))
                          (str_drop (N.to_nat pos) s)).

(** [s.erase(pos, n)]: throws when [pos > size()], otherwise removes
    [min(n, size() - pos)] characters starting at [pos]. *)
Definition erase (s : string) (pos n : N) : outcome string :=
  if (size s <? pos)%N then Thrown out_of_range
  else let k := N.min n (size s - pos) in
       Returned (str_take (N.to_nat pos) s +:+ str_drop (N.to_nat (pos + k)) s).

(** [s.at(pos)]: throws when [pos >= size()]. *)
Definition at_ (s : string) (pos : N) : outcome ascii :=
  if (pos <? size s)%N then
    match String.get (N.to_nat pos) s with
    | Some c => Returned c
    | None => Thrown out_of_range
    end
  else Thrown out_of_range.

(** Position of the leftmost occurrence of [pattern] in [text]. *)
Fixpoint find_index (text pattern : string) : option nat :=
  if String.prefix pattern text then Some 0
  else match text with
       | EmptyString => None
       | String _ text' => S <$> find_index text' pattern
       end.

(** [text.find(pattern)]: the leftmost position, or [npos]. *)
Definition find (text pattern : string) : N :=
  match find_index text pattern with
  | Some p => N.of_nat p
  | None => SizeT.npos
  end.

(** ** [pkg_source] *)

Record pkg_source : Type := mk_pkg_source {
  name : string;
  url : string;
  path : string
}.

(** The default-constructed record: three empty strings. *)
Definition pkg_source_default : pkg_source := mk_pkg_source "" "" "".

Definition is_valid (s : pkg_source) : bool :=
  negb (empty (name s)) || negb (empty (url s)) || negb (empty (path s)).

(** ** [birb::split_string] *)

(** The [while] loop of [split_string]; the state is [text] and [result]. *)
Fixpoint split_loop (fuel : nat) (text delimiter : string) (result : list string)
  : outcome (list string * string) :=
  match fuel with
  | O => NoFuel
  | S fuel' =>
      let pos := find text delimiter in
      if (pos =? SizeT.npos)%N then Returned (result, text)
      else
        piece ← substr text 0 pos;
        text' ← erase text 0 (SizeT.add pos (size delimiter));
        split_loop fuel' text' delimiter (result ++ [piece])
  end.

Definition split_string_fuel (fuel : nat) (text delimiter : string)
  : outcome (list string) :=
  '(result, text') ← split_loop fuel text delimiter [];
  mret (if empty text' then result else result ++ [text']).

(** Every pass of the loop removes at least one character when the delimiter
    is not empty, so [size() + 1] passes are enough (see
    [split_string_fuel_enough]). *)
Definition split_string (text delimiter : string) : outcome (list string) :=
  split_string_fuel (S (String.length text)) text delimiter.

(** ** The environment: file system and process state *)

(** What [std::filesystem::status] reports for a path once symbolic links are
    followed.  [none] is the result of a query that failed with an error of
    the operating system other than "no such file": no permission to search a
    directory, too many levels of links, a name that is too long. *)
Inductive file_type : Type :=
| none | not_found | regular | directory | block | character | fifo | socket
| unknown.

Record filesystem : Type := {
  (** the kind of file a path leads to *)
  fs_status : string → file_type;
  (** the bytes an input stream opened on the path delivers; [None] when the
      open fails *)
  fs_open : string → option string
}.

(** [std::filesystem::exists(p)], the overload without an error code: it is
    [exists(status(p))], and [status(p)] throws when the query failed. *)
Definition exists_ (fs : filesystem) (p : string) : outcome bool :=
  match fs_status fs p with
  | none => Thrown filesystem_error
  | not_found => Returned false
  | _ => Returned true
  end.

(** [std::filesystem::is_regular_file(p)], the overload without an error
    code: [is_regular_file(status(p))]. *)
Definition is_regular_file (fs : filesystem) (p : string) : outcome bool :=
  match fs_status fs p with
  | none => Thrown filesystem_error
  | regular => Returned true
  | _ => Returned false
  end.

(** The observable state of the process: the global [var_cache], what was
    written to [std::cout], and the paths on which an open was attempted. *)
Record process_state : Type := {
  var_cache : gmap string string;
  stdout : string;
  open_calls : list string
}.

Definition initial_state : process_state :=
  {| var_cache := ∅; stdout := ""; open_calls := [] |}.

Definition with_cache (c : gmap string string) (st : process_state) : process_state :=
  {| var_cache := c; stdout := stdout st; open_calls := open_calls st |}.

(** [std::cout << text]. *)
Definition cout (text : string) (st : process_state) : process_state :=
  {| var_cache := var_cache st; stdout := stdout st +:+ text;
     open_calls := open_calls st |}.

Definition log_open (p : string) (st : process_state) : process_state :=
  {| var_cache := var_cache st; stdout := stdout st;
     open_calls := open_calls st ++ [p] |}.

(** ** [std::ifstream] and [std::getline] *)

Record ifstream : Type := {
  buffer : string;     (* the characters not yet extracted *)
  eofbit : bool;
  failbit : bool
}.

Definition ifstream_of (content : string) : ifstream :=
  {| buffer := content; eofbit := false; failbit := false |}.

(** Extract characters up to the first newline: the characters before it and,
    when a newline was found, what follows it. *)
Fixpoint extract_line (s : string) : string * option string :=
  match s with
  | EmptyString => (EmptyString, None)
  | String c s' =>
      if Ascii.eqb c newline then (EmptyString, Some s')
      else let '(l, r) := extract_line s' in (String c l, r)
  end.

(** [std::getline(file, str)]: the stream, the string and whether the stream
    is still good for the loop test.  When the stream is not good on entry
    the sentry fails and [str] is left as it was; otherwise [str] is cleared
    and filled; reaching the end of the input sets [eofbit], and extracting
    nothing at all sets [failbit]. *)
Definition getline (file : ifstream) (str : string) : ifstream * string * bool :=
  if eofbit file || failbit file then
    ({| buffer := buffer file; eofbit := eofbit file; failbit := true |}, str, false)
  else
    match extract_line (buffer file) with
    | (l, Some rest) =>
        ({| buffer := rest; eofbit := false; failbit := false |}, l, true)
    | (l, None) =>
        if empty l then ({| buffer := ""; eofbit := true; failbit := true |}, l, false)
        else ({| buffer := ""; eofbit := true; failbit := false |}, l, true)
    end.

(** ** [birb::read_file] *)

Fixpoint read_file_loop (fuel : nat) (file : ifstream) (line : string)
    (lines : list string) : outcome (list string) :=
  match fuel with
  | O => NoFuel
  | S fuel' =>
      let '(file', line', good) := getline file line in
      if good then
        if (size line' =? 0)%N then read_file_loop fuel' file' line' lines
        else
          c ← at_ line' 0;
          if Ascii.eqb c hash then read_file_loop fuel' file' line' lines
          else read_file_loop fuel' file' line' (lines ++ [line'])
      else Returned lines
  end.

Definition cant_be_opened (file_path : string) : string :=
  "File [" +:+ file_path +:+ " can't be opened!" +:+ String newline "".

(** A successful [getline] consumes at least one character, so the loop body
    runs at most [length content] times before the failing [getline]. *)
Definition read_file (fs : filesystem) (st : process_state) (file_path : string)
  : outcome (list string) * process_state :=
  let st := log_open file_path st in
  match fs_open fs file_path with
  | None => (Exited 2, cout (cant_be_opened file_path) st)
  | Some content =>
      (read_file_loop (S (String.length content)) (ifstream_of content) "" [], st)
  end.

(** ** [birb::get_pkg_sources] *)

(** [v[i]] on a [std::vector]: undefined behaviour out of range. *)
Definition vector_index {A : Type} (v : list A) (i : nat) : outcome A :=
  match v !! i with
  | Some x => Returned x
  | None => Undefined
  end.

Fixpoint get_pkg_sources_loop (repository_lines : list string)
    (sources : list pkg_source) : outcome (list pkg_source) :=
  match repository_lines with
  | [] => Returned sources
  | l :: rest =>
      line ← split_string l ";";
      s_name ← vector_index line 0;
      s_url ← vector_index line 1;
      s_path ← vector_index line 2;
      get_pkg_sources_loop rest (sources ++ [mk_pkg_source s_name s_url s_path])
  end.

Section Sources.

(** The macro [PKG_SOURCE_CONFIG_PATH] comes from [Birb.hpp]. *)
Variable PKG_SOURCE_CONFIG_PATH : string.

Definition get_pkg_sources (fs : filesystem) (st : process_state)
  : outcome (list pkg_source) * process_state :=
  let '(r, st') := read_file fs st PKG_SOURCE_CONFIG_PATH in
  (repository_lines ← r; get_pkg_sources_loop repository_lines [], st').

Definition get_pkg_source_list (fs : filesystem) (st : process_state)
  : outcome (list string) * process_state :=
  read_file fs st PKG_SOURCE_CONFIG_PATH.

End Sources.

(** ** [birb::locate_pkg_repo] *)

Definition seed_path_of (dir pkg_name : string) : string :=
  dir +:+ "/" +:+ pkg_name +:+ "/seed.sh".

(** The loop returns at the first hit; [&&] does not evaluate its second
    operand when the first is false; an exception of either query leaves the
    function, which catches nothing. *)
Fixpoint locate_pkg_repo (fs : filesystem) (pkg_name : string)
    (package_sources : list pkg_source) : outcome pkg_source :=
  match package_sources with
  | [] => Returned pkg_source_default
  | s :: rest =>
      let seed_path := seed_path_of (path s) pkg_name in
      found ← exists_ fs seed_path;
      hit ← (if found : bool then is_regular_file fs seed_path else Returned false);
      if hit : bool then Returned s else locate_pkg_repo fs pkg_name rest
  end.

(** ** [birb::read_pkg_variable] *)

(** [var_cache] is declared in [Birb.hpp]; the code uses it as a standard map
    from strings to strings.  [var_cache[key]] gives the mapped value; a
    missing key is first inserted with an empty string. *)
Definition cache_index (cache : gmap string string) (key : string)
  : string * gmap string string :=
  match cache !! key with
  | Some v => (v, cache)
  | None => ("", <[key := ""]> cache)
  end.

(** The two characters that follow the variable name in an assignment. *)
Definition eq_quote : string := String "="%char (String dquote "").

(** The [while] loop over the lines of the build script; the result is
    [var_line] when the loop ends. *)
Fixpoint scan_loop (fuel : nat) (pkg_file : ifstream) (var_line var_name : string)
  : outcome string :=
  match fuel with
  | O => NoFuel
  | S fuel' =>
      let '(pkg_file', var_line', good) := getline pkg_file var_line in
      if good then
        head ← substr var_line' 0 (SizeT.add (size var_name) 2);
        if String.eqb head (var_name +:+ eq_quote) then Returned var_line'
        else scan_loop fuel' pkg_file' var_line' var_name
      else Returned var_line'
  end.

(** The clean-up after the loop: two [erase] calls. *)
Definition clean_up (var_line var_name : string) : outcome string :=
  var_line ← erase var_line 0 (SizeT.add (size var_name) 2);
  erase var_line (SizeT.sub (size var_line) 1) 1.

Definition read_pkg_variable (fs : filesystem) (st : process_state)
    (pkg_name var_name repo_path : string) : outcome string * process_state :=
  let key := pkg_name +:+ var_name in
  let '(cached, cache1) := cache_index (var_cache st) key in
  if negb (empty cached) then
    let '(v, cache2) := cache_index cache1 key in
    (Returned v, with_cache cache2 st)
  else
    let pkg_path := seed_path_of repo_path pkg_name in
    let st1 := log_open pkg_path (with_cache cache1 st) in
    match fs_open fs pkg_path with
    | None => (Returned "", st1)
    | Some content =>
        match
          var_line ← scan_loop (S (String.length content)) (ifstream_of content)
                               "" var_name;
          clean_up var_line var_name
        with
        | Returned var_line =>
            let '(_, cache2) := cache_index cache1 key in
            (Returned var_line, with_cache (<[key := var_line]> cache2) st1)
        | Thrown e => (Thrown e, st1)
        | Exited n => (Exited n, st1)
        | Undefined => (Undefined, st1)
        | NoFuel => (NoFuel, st1)
        end
    end.

(** ** Notions used in the statements *)

(** [text] is [pre], then [delimiter], then [rest]. *)
Definition cut_here (delimiter text pre rest : string) : Prop :=
  text = pre +:+ delimiter +:+ rest.

(** The cut at the leftmost occurrence of the delimiter. *)
Definition leftmost_cut (delimiter text pre rest : string) : Prop :=
  cut_here delimiter text pre rest ∧
  ∀ pre' rest', cut_here delimiter text pre' rest' →
                String.length pre <= String.length pre'.

(** The splitting as the specification of the Text Splitter words it: cut at
    the leftmost occurrence of the delimiter, again and again, until none is
    left; the remainder is a piece only when it is not empty. *)
Inductive cuts (delimiter : string) : string → list string → Prop :=
| cuts_done text :
    (∀ pre rest, ¬ cut_here delimiter text pre rest) →
    cuts delimiter text (if empty text then [] else [text])
| cuts_step text pre rest pieces :
    leftmost_cut delimiter text pre rest →
    cuts delimiter rest pieces →
    cuts delimiter text (pre :: pieces).

(** The lines of a text: a newline ends a line, and what follows the last
    newline is a line of its own unless it is empty. *)
Fixpoint lines_of (content : string) : list string :=
  match content with
  | EmptyString => []
  | String c content' =>
      if Ascii.eqb c newline then "" :: lines_of content'
      else match lines_of content' with
           | [] => [String c ""]
           | l :: ls => String c l :: ls
           end
  end.

(** The text is empty or its last character is a newline. *)
Fixpoint newline_terminated (content : string) : bool :=
  match content with
  | EmptyString => true
  | String c content' =>
      if empty content' then Ascii.eqb c newline else newline_terminated content'
  end.

(** A line that [read_file] keeps: not empty and not starting with [#]. *)
Definition retained (line : string) : bool :=
  match line with
  | EmptyString => false
  | String c _ => negb (Ascii.eqb c hash)
  end.

(** The line starts with the variable name, an equals sign and a double
    quote. *)
Definition is_assignment (var_name line : string) : bool :=
  String.prefix (var_name +:+ eq_quote) line.

(** No non-empty value is cached under [key]. *)
Definition cache_miss (st : process_state) (key : string) : Prop :=
  ∀ v, var_cache st !! key = Some v → v = "".

(** The build script of [pkg_name] under the directory of [s] exists and is a
    regular file. *)
Definition has_seed (fs : filesystem) (pkg_name : string) (s : pkg_source) : Prop :=
  exists_ fs (seed_path_of (path s) pkg_name) = Returned true ∧
  is_regular_file fs (seed_path_of (path s) pkg_name) = Returned true.

(** The status of that path can be queried, and the path does not exist or
    is not a regular file. *)
Definition no_seed (fs : filesystem) (pkg_name : string) (s : pkg_source) : Prop :=
  exists_ fs (seed_path_of (path s) pkg_name) = Returned false ∨
  (exists_ fs (seed_path_of (path s) pkg_name) = Returned true ∧
   is_regular_file fs (seed_path_of (path s) pkg_name) = Returned false).

(** The status query on that path fails. *)
Definition status_fails (fs : filesystem) (pkg_name : string) (s : pkg_source)
  : Prop :=
  fs_status fs (seed_path_of (path s) pkg_name) = none.

(** The record has the first three fields of a configuration line. *)
Definition record_of_fields (fields : list string) (r : pkg_source) : Prop :=
  fields !! 0 = Some (name r) ∧ fields !! 1 = Some (url r) ∧
  fields !! 2 = Some (path r).

(** The configuration line splits on [;] into the fields of the record. *)
Definition parses_to (line : string) (r : pkg_source) : Prop :=
  ∃ fields, split_string line ";" = Returned fields ∧ record_of_fields fields r.

(** ** Sample environments *)

Definition quoted (s : string) : string := String dquote (s +:+ String dquote "").
Definition nl : string := String newline "".

Fixpoint lookup_file (files : list (string * string)) (p : string) : option string :=
  match files with
  | [] => None
  | (q, content) :: rest => if String.eqb q p then Some content else lookup_file rest p
  end.

(** A file system holding the regular files [files] and nothing else. *)
Definition fs_of (files : list (string * string)) : filesystem :=
  {| fs_status := fun p => match lookup_file files p with
                          | Some _ => regular
                          | None => not_found
                          end;
     fs_open := lookup_file files |}.

(** The same, except that the directory [/a] may not be searched: every status
    query on a path below it fails. *)
Definition fs_a_denied (files : list (string * string)) : filesystem :=
  {| fs_status := fun p => if String.prefix "/a/" p then none
                           else fs_status (fs_of files) p;
     fs_open := fun p => if String.prefix "/a/" p then None
                         else lookup_file files p |}.

(** Sample build scripts, all at [/r/p/seed.sh]. *)
Definition seed_sh : string := "/r/p/seed.sh".
Definition depends_foo_bar : string := "DEPENDS=" +:+ quoted "foo bar".
Definition script_foo_bar : string :=
  "NAME=" +:+ quoted "p" +:+ nl +:+ depends_foo_bar +:+ nl +:+ "build" +:+ nl.
Definition script_baz : string := "DEPENDS=" +:+ quoted "baz" +:+ nl.
Definition script_empty_value : string := "DEPENDS=" +:+ quoted "" +:+ nl.
Definition script_no_depends : string :=
  "NAME=" +:+ quoted "p" +:+ nl +:+ "build" +:+ nl.
Definition script_bare_prefix : string := "DEPENDS=" +:+ String dquote "" +:+ nl.
Definition script_long_last_line : string :=
  "NAME=" +:+ quoted "p" +:+ nl +:+ "SOMETHING_LONG=abcdef".

(** A sample configuration file. *)
Definition sources_conf : string :=
  "# repositories" +:+ nl +:+ nl +:+ "pkgsA;https://x;/repo/a" +:+ nl +:+
  "pkgsB;https://y;/repo/b;extra" +:+ nl.

Definition three_repos : list pkg_source :=
  [mk_pkg_source "a" "https://a" "/a"; mk_pkg_source "b" "https://b" "/r";
   mk_pkg_source "c" "https://c" "/r"].

(** ** [pkg_source::print] *)

Definition tab : ascii := "009"%char.

(** The nine insertions into [std::cout], in order. *)
Definition print (s : pkg_source) (st : process_state) : process_state :=
  cout nl (cout (path s) (cout ("Path: " +:+ String tab "")
  (cout nl (cout (url s) (cout ("URL: " +:+ String tab "")
  (cout nl (cout (name s) (cout ("Name: " +:+ String tab "") st)))))))).

(** ** Texts built from lines and fields *)

(** The character occurs in the string. *)
Fixpoint contains_char (c : ascii) (s : string) : bool :=
  match s with
  | EmptyString => false
  | String a s' => Ascii.eqb a c || contains_char c s'
  end.

(** The lines, each followed by a newline. *)
Fixpoint unlines (ls : list string) : string :=
  match ls with
  | [] => ""
  | l :: ls' => l +:+ nl +:+ unlines ls'
  end.

(** The configuration line [name;url;path] of a record. *)
Definition config_line (r : pkg_source) : string :=
  name r +:+ ";" +:+ url r +:+ ";" +:+ path r.

(** A record that can be written as one configuration line: no field holds a
    semicolon or a newline, the path is not empty, and the name does not
    start with [#]. *)
Definition writable (r : pkg_source) : Prop :=
  contains_char ";" (name r) = false ∧ contains_char newline (name r) = false ∧
  contains_char ";" (url r) = false ∧ contains_char newline (url r) = false ∧
  contains_char ";" (path r) = false ∧ contains_char newline (path r) = false ∧
  path r ≠ "" ∧ (∀ rest, name r ≠ String hash rest).

(** A configuration file whose second line has an empty path. *)
Definition conf_empty_path : string :=
  "pkgsA;https://x;/repo/a" +:+ nl +:+ "pkgsB;https://y;" +:+ nl.

(** * Lemmas *)

Section StringFacts.

Lemma app_cons (c : ascii) (a b : string) :
  String c a +:+ b = String c (a +:+ b).
Proof. reflexivity. Qed.

Lemma app_empty_l (b : string) : "" +:+ b = b.
Proof. reflexivity. Qed.

Lemma length_app (a b : string) :
  String.length (a +:+ b) = String.length a + String.length b.
Proof.
  induction a as [|c a IH]; [done |].
  rewrite app_cons. simpl. by rewrite IH.
Qed.

Lemma app_assoc_s (a b c : string) : (a +:+ b) +:+ c = a +:+ b +:+ c.
Proof.
  induction a as [|x a IH]; [done |].
  by rewrite !app_cons, IH.
Qed.

Lemma app_empty_r (a : string) : a +:+ "" = a.
Proof.
  induction a as [|x a IH]; [done |].
  by rewrite app_cons, IH.
Qed.


Lemma empty_length (s : string) : empty s = true ↔ String.length s = 0.
Proof. destruct s; simpl; split; congruence. Qed.

Lemma str_take_drop (n : nat) (s : string) : str_take n s +:+ str_drop n s = s.
Proof.
  revert s; induction n as [|n IH]; intros [|c s]; simpl; try done.
  by rewrite app_cons, IH.
Qed.

Lemma str_take_0 (s : string) : str_take 0 s = "".
Proof. by destruct s. Qed.

Lemma str_drop_0 (s : string) : str_drop 0 s = s.
Proof. by destruct s. Qed.

Lemma str_take_app (a b : string) : str_take (String.length a) (a +:+ b) = a.
Proof.
  induction a as [|c a IH]; [apply str_take_0 |].
  rewrite app_cons. simpl. by rewrite IH.
Qed.

Lemma str_drop_app (a b : string) : str_drop (String.length a) (a +:+ b) = b.
Proof.
  induction a as [|c a IH]; [apply str_drop_0 |].
  rewrite app_cons. simpl. done.
Qed.

Lemma str_take_all (n : nat) (s : string) :
  String.length s <= n → str_take n s = s.
Proof.
  revert s; induction n as [|n IH]; intros [|c s]; simpl; intros H; try done.
  - lia.
  - rewrite IH; [done | lia].
Qed.

Lemma str_drop_length (n : nat) (s : string) :
  String.length (str_drop n s) = String.length s - n.
Proof.
  revert s; induction n as [|n IH]; intros [|c s]; simpl; try done.
Qed.

(** Two splittings of a string at the same position agree. *)
Lemma app_inv_length (a b a' b' : string) :
  a +:+ b = a' +:+ b' → String.length a = String.length a' → a = a' ∧ b = b'.
Proof.
  revert a'; induction a as [|c a IH]; intros [|c' a']; simpl; try done.
  rewrite !app_cons. intros [= -> H] [= Hl].
  destruct (IH _ H Hl) as [-> ->]. done.
Qed.

Lemma prefix_app (p s : string) :
  String.prefix p s = true ↔ ∃ r, s = p +:+ r.
Proof.
  revert s; induction p as [|c p IH]; intros s; simpl.
  - destruct s; simpl; split; eauto.
  - destruct s as [|d s]; simpl.
    + split; [done | intros [r Hr]; discriminate].
    + destruct (ascii_dec c d) as [->|Hne].
      * rewrite IH. split; intros [r Hr]; exists r.
        -- by rewrite app_cons, Hr.
        -- rewrite app_cons in Hr. congruence.
      * split; [done |]. intros [r Hr]. rewrite app_cons in Hr. congruence.
Qed.

End StringFacts.

Section SizeFacts.

Lemma modulus_eq : SizeT.modulus = 18446744073709551616%N.
Proof. reflexivity. Qed.

Lemma npos_eq : SizeT.npos = 18446744073709551615%N.
Proof. reflexivity. Qed.

Lemma add_small (a b : N) :
  (a + b < SizeT.modulus)%N → SizeT.add a b = (a + b)%N.
Proof. intros H. unfold SizeT.add. by apply N.mod_small. Qed.

Lemma sub_small (a b : N) :
  (b <= a)%N → (a < SizeT.modulus)%N → SizeT.sub a b = (a - b)%N.
Proof.
  intros Hb Ha. unfold SizeT.sub.
  rewrite Z.mod_small by lia. lia.
Qed.

(** [0 - 1] in [size_t] is [npos]. *)
Lemma sub_0_1 : SizeT.sub 0 1 = SizeT.npos.
Proof. reflexivity. Qed.

Lemma size_app (a b : string) : size (a +:+ b) = (size a + size b)%N.
Proof. unfold size. rewrite length_app. lia. Qed.

Lemma size_0 (s : string) : size s = 0%N ↔ s = "".
Proof. unfold size. destruct s; simpl; split; intros; (done || lia). Qed.

End SizeFacts.

Section Find.

Lemma find_index_Some (text d : string) (p : nat) :
  find_index text d = Some p →
  ∃ pre rest, leftmost_cut d text pre rest ∧ String.length pre = p.
Proof.
  revert p; induction text as [|c t IH]; intros p.
  - unfold find_index. destruct (String.prefix d "") eqn:Hp; [|done].
    intros [= <-]. apply prefix_app in Hp as [r Hr].
    exists "", r. split; [split |]; [done | intros; simpl; lia | done].
  - unfold find_index; fold find_index.
    destruct (String.prefix d (String c t)) eqn:Hp.
    + intros [= <-]. apply prefix_app in Hp as [r Hr].
      exists "", r. split; [split |]; [done | intros; simpl; lia | done].
    + destruct (find_index t d) as [q|] eqn:Hq; [|done].
      intros [= <-]. destruct (IH q eq_refl) as (pre & rest & [Hc Hl] & Hlen).
      exists (String c pre), rest. split; [split |].
      * unfold cut_here in *. by rewrite app_cons, <- Hc.
      * intros pre' rest' Hc'. unfold cut_here in Hc'.
        destruct pre' as [|c' pre'].
        -- rewrite app_empty_l in Hc'.
           assert (String.prefix d (String c t) = true) as Ht
             by (apply prefix_app; eauto).
           congruence.
        -- rewrite app_cons in Hc'. injection Hc' as -> Hc'.
           specialize (Hl pre' rest' Hc'). simpl. lia.
      * simpl. by rewrite Hlen.
Qed.

Lemma find_index_None (text d : string) :
  find_index text d = None → ∀ pre rest, ¬ cut_here d text pre rest.
Proof.
  induction text as [|c t IH]; unfold find_index; fold find_index.
  - destruct (String.prefix d "") eqn:Hp; [done |].
    intros _ pre rest Hc. unfold cut_here in Hc.
    destruct pre; [| by rewrite app_cons in Hc].
    rewrite app_empty_l in Hc.
    assert (String.prefix d "" = true) by (apply prefix_app; eauto).
    congruence.
  - destruct (String.prefix d (String c t)) eqn:Hp; [done |].
    destruct (find_index t d) eqn:Hq; [done |].
    intros _ pre rest Hc. unfold cut_here in Hc.
    destruct pre as [|c' pre].
    + rewrite app_empty_l in Hc.
      assert (String.prefix d (String c t) = true) by (apply prefix_app; eauto).
      congruence.
    + rewrite app_cons in Hc. injection Hc as -> Hc.
      by apply (IH eq_refl pre rest).
Qed.

Lemma leftmost_cut_unique (d text pre rest pre' rest' : string) :
  leftmost_cut d text pre rest → leftmost_cut d text pre' rest' →
  pre = pre' ∧ rest = rest'.
Proof.
  intros [Hc Hl] [Hc' Hl'].
  pose proof (Hl _ _ Hc'). pose proof (Hl' _ _ Hc).
  unfold cut_here in *. rewrite Hc in Hc'.
  apply app_inv_length in Hc' as [-> Hr]; [| lia].
  split; [done |]. by apply (inj (String.app d)) in Hr.
Qed.

Lemma cut_here_length (d text pre rest : string) :
  cut_here d text pre rest →
  String.length text = String.length pre + String.length d + String.length rest.
Proof. intros ->. rewrite !length_app. lia. Qed.

End Find.

Section SplitString.

Variable delimiter : string.

(** One pass of the loop body on a text that contains the delimiter. *)
Lemma split_step (text pre rest : string) :
  leftmost_cut delimiter text pre rest →
  (size text < SizeT.npos)%N →
  find text delimiter = N.of_nat (String.length pre) ∧
  substr text 0 (find text delimiter) = Returned pre ∧
  erase text 0 (SizeT.add (find text delimiter) (size delimiter)) = Returned rest.
Proof.
  intros Hcut Hsz.
  assert (find text delimiter = N.of_nat (String.length pre)) as Hfind.
  { unfold find. destruct (find_index text delimiter) as [p|] eqn:Hp.
    - apply find_index_Some in Hp as (pre' & rest' & Hcut' & <-).
      by destruct (leftmost_cut_unique _ _ _ _ _ _ Hcut Hcut') as [-> _].
    - destruct Hcut as [Hc _]. by apply find_index_None with (pre:=pre) (rest:=rest) in Hp. }
  destruct Hcut as [Hc _]. pose proof (cut_here_length _ _ _ _ Hc) as Hlen.
  rewrite Hfind. unfold size in *. rewrite npos_eq in Hsz.
  split; [done |]. split.
  - unfold substr, size. rewrite (proj2 (N.ltb_ge _ _)) by lia.
    replace (N.to_nat 0) with 0 by done. rewrite str_drop_0.
    rewrite N.min_l by lia. rewrite Nat2N.id.
    rewrite Hc. by rewrite str_take_app.
  - unfold erase, size. rewrite (proj2 (N.ltb_ge _ _)) by lia.
    rewrite add_small by (rewrite modulus_eq; lia).
    rewrite N.min_l by lia.
    replace (N.to_nat 0) with 0 by done. rewrite str_take_0, app_empty_l.
    replace (N.to_nat (0 + (N.of_nat (String.length pre) +
                             N.of_nat (String.length delimiter))))
      with (String.length (pre +:+ delimiter)) by (rewrite length_app; lia).
    rewrite Hc, <- app_assoc_s. by rewrite str_drop_app.
Qed.

Hypothesis delimiter_not_empty : delimiter ≠ "".

Lemma split_loop_cuts (fuel : nat) :
  ∀ text result,
    String.length text < fuel → (size text < SizeT.npos)%N →
    ∃ ps last,
      split_loop fuel text delimiter result = Returned (result ++ ps, last) ∧
      cuts delimiter text (ps ++ (if empty last then [] else [last])).
Proof.
  induction fuel as [|fuel IH]; intros text result Hfuel Hsz; [lia |].
  destruct (find_index text delimiter) as [p|] eqn:Hp.
  - apply find_index_Some in Hp as (pre & rest & Hcut & <-).
    destruct (split_step _ _ _ Hcut Hsz) as (Hfind & Hsub & Her).
    pose proof (cut_here_length _ _ _ _ (proj1 Hcut)) as Hlen.
    assert (0 < String.length delimiter)
      by (destruct delimiter; simpl; [done | lia]).
    destruct (IH rest (result ++ [pre])) as (ps & last & Hloop & Hcuts).
    { lia. }
    { unfold size in *. lia. }
    exists (pre :: ps), last. split.
    + simpl. rewrite Hsub, Her. rewrite Hfind.
      rewrite (proj2 (N.eqb_neq _ _)).
      * simpl. rewrite Hloop. by rewrite <- app_assoc.
      * unfold size in Hsz. lia.
    + simpl. by eapply cuts_step.
  - exists [], text. split.
    + simpl. unfold find. rewrite Hp. rewrite N.eqb_refl. by rewrite app_nil_r.
    + simpl. apply cuts_done. by apply find_index_None.
Qed.

Lemma cuts_unique (text : string) (ps ps' : list string) :
  cuts delimiter text ps → cuts delimiter text ps' → ps = ps'.
Proof.
  intros H; revert ps'.
  induction H as [text Hno | text pre rest pieces Hcut Hrest IH]; intros ps' H'.
  - inversion H' as [? Hno' | ? pre' rest' ? [Hc _] ?]; subst; [done |].
    by destruct (Hno pre' rest').
  - inversion H' as [? Hno' | ? pre' rest' ? Hcut' Hrest']; subst.
    + by destruct (Hno' pre rest (proj1 Hcut)).
    + destruct (leftmost_cut_unique _ _ _ _ _ _ Hcut Hcut') as [-> ->].
      f_equal. by apply IH.
Qed.

Lemma split_string_fuel_cuts (fuel : nat) (text : string) :
  String.length text < fuel → (size text < SizeT.npos)%N →
  ∃ pieces, split_string_fuel fuel text delimiter = Returned pieces ∧
            cuts delimiter text pieces.
Proof.
  intros Hfuel Hsz.
  destruct (split_loop_cuts fuel text [] Hfuel Hsz) as (ps & last & Hloop & Hcuts).
  exists (ps ++ (if empty last then [] else [last])). split; [| done].
  unfold split_string_fuel. rewrite Hloop. simpl.
  destruct (empty last); simpl; by rewrite ?app_nil_r.
Qed.

(** More passes than [size() + 1] change nothing. *)
Lemma split_string_fuel_enough (fuel : nat) (text : string) :
  String.length text < fuel → (size text < SizeT.npos)%N →
  split_string_fuel fuel text delimiter = split_string text delimiter.
Proof.
  intros Hfuel Hsz.
  destruct (split_string_fuel_cuts fuel text Hfuel Hsz) as (ps & -> & Hps).
  destruct (split_string_fuel_cuts (S (String.length text)) text) as (ps' & E & Hps');
    [lia | done |].
  unfold split_string. rewrite E. f_equal. by eapply cuts_unique.
Qed.

End SplitString.

(** With an empty delimiter the loop never ends: no budget is enough. *)
Lemma split_string_empty_delimiter (fuel : nat) (text : string) :
  split_string_fuel fuel text "" = NoFuel.
Proof.
  unfold split_string_fuel.
  assert (∀ result, split_loop fuel text "" result = NoFuel) as ->; [| done].
  induction fuel as [|fuel IH]; intros result; [done |].
  assert (find text "" = 0%N) as Hfind by (by destruct text).
  simpl. rewrite Hfind. simpl.
  assert (substr text 0 0 = Returned "") as ->.
  { unfold substr. rewrite (proj2 (N.ltb_ge _ _)) by lia.
    rewrite N.min_l by lia. by destruct text. }
  assert (erase text 0 (SizeT.add 0 (size "")) = Returned text) as ->.
  { unfold erase. rewrite (proj2 (N.ltb_ge _ _)) by lia.
    change (SizeT.add 0 (size "")) with 0%N.
    rewrite N.min_l by lia. by destruct text. }
  simpl. apply IH.
Qed.

Section Streams.

Lemma extract_line_Some (s l rest : string) :
  extract_line s = (l, Some rest) →
  lines_of s = l :: lines_of rest ∧
  newline_terminated s = newline_terminated rest ∧
  String.length rest < String.length s.
Proof.
  revert l; induction s as [|c s IH]; intros l; simpl; [done |].
  destruct (Ascii.eqb c newline) eqn:Hc.
  - intros [= <- <-]. split; [done |]. split; [| lia].
    destruct s; simpl; done.
  - destruct (extract_line s) as [l' r'] eqn:He. intros [= <- ->].
    destruct (IH l' eq_refl) as (Hl & Hn & Hlen). rewrite Hl.
    split; [done |]. split; [| lia].
    destruct s; [done |]. by simpl in *.
Qed.

Lemma extract_line_None (s l : string) :
  extract_line s = (l, None) →
  l = s ∧ lines_of s = (if empty s then [] else [s]) ∧
  (newline_terminated s = true → s = "").
Proof.
  revert l; induction s as [|c s IH]; intros l; simpl; [by intros [= <-] |].
  destruct (Ascii.eqb c newline) eqn:Hc; [done |].
  destruct (extract_line s) as [l' r'] eqn:He. intros [= <- ->].
  destruct (IH l' eq_refl) as (-> & Hl & Hn). rewrite Hl.
  split; [done |]. split.
  - by destruct s.
  - destruct s; simpl in *; [done |]. intros H. by specialize (Hn H).
Qed.

(** Once [eofbit] is set, [getline] fails and leaves the string alone. *)
Lemma getline_at_eof (b str : string) (f : bool) :
  getline {| buffer := b; eofbit := true; failbit := f |} str =
  ({| buffer := b; eofbit := true; failbit := true |}, str, false).
Proof. done. Qed.

Lemma retained_spec (line : string) :
  retained line = true ↔
  line ≠ "" ∧ ∀ rest, line ≠ String hash rest.
Proof.
  destruct line as [|c l]; simpl.
  - split; [done | by intros [? _]].
  - destruct (Ascii.eqb_spec c hash) as [->|Hne]; simpl.
    + split; [done |]. intros [_ H]. by destruct (H l).
    + split; [| done]. intros _. split; [done |]. intros rest [= ? ?]. done.
Qed.

Lemma read_file_loop_lines (fuel : nat) :
  ∀ content str lines,
    String.length content < fuel →
    read_file_loop fuel (ifstream_of content) str lines =
    Returned (lines ++ filter (λ l, retained l = true) (lines_of content)).
Proof.
  induction fuel as [|fuel IH]; intros content str lines Hfuel; [lia |].
  simpl. unfold getline. simpl.
  destruct (extract_line content) as [l [rest|]] eqn:He.
  - apply extract_line_Some in He as (-> & _ & Hlen).
    change {| buffer := rest; eofbit := false; failbit := false |}
      with (ifstream_of rest).
    destruct l as [|c l].
    + simpl. rewrite IH by lia. by rewrite filter_cons_False.
    + replace (size (String c l) =? 0)%N with false
        by (symmetry; apply N.eqb_neq; unfold size; simpl; lia).
      replace (at_ (String c l) 0) with (Returned (A:=ascii) c)
        by (unfold at_, size; simpl; done).
      simpl. destruct (Ascii.eqb c hash) eqn:Hc.
      * rewrite IH by lia. rewrite filter_cons_False; [done |].
        simpl. by rewrite Hc.
      * rewrite IH by lia. rewrite filter_cons_True by (simpl; by rewrite Hc).
        by rewrite <- app_assoc.
  - apply extract_line_None in He as (-> & -> & _).
    destruct content as [|c l]; simpl.
    + by rewrite app_nil_r.
    + replace (size (String c l) =? 0)%N with false
        by (symmetry; apply N.eqb_neq; unfold size; simpl; lia).
      replace (at_ (String c l) 0) with (Returned (A:=ascii) c)
        by (unfold at_, size; simpl; done).
      simpl in Hfuel. destruct fuel as [|fuel]; [lia |].
      simpl. destruct (Ascii.eqb c hash) eqn:Hc; simpl.
      * rewrite filter_cons_False by (simpl; by rewrite Hc).
        by rewrite filter_nil, app_nil_r.
      * rewrite filter_cons_True by (simpl; by rewrite Hc).
        by rewrite filter_nil.
Qed.

End Streams.

Section Scan.

Variable var_name : string.

Lemma str_take_min (n : nat) (s : string) :
  str_take (n `min` String.length s) s = str_take n s.
Proof.
  destruct (Nat.le_gt_cases n (String.length s)).
  - by rewrite Nat.min_l.
  - rewrite Nat.min_r by lia. rewrite !str_take_all; (done || lia).
Qed.

Lemma take_prefix (p line : string) :
  String.eqb (str_take (String.length p) line) p = String.prefix p line.
Proof.
  destruct (String.eqb_spec (str_take (String.length p) line) p) as [E|E];
    destruct (String.prefix p line) eqn:Hp; try done.
  - assert (String.prefix p line = true) as Hp'; [| congruence].
    apply prefix_app. exists (str_drop (String.length p) line).
    rewrite <- E at 1. by rewrite str_take_drop.
  - apply prefix_app in Hp as [r ->]. by rewrite str_take_app in E.
Qed.

Lemma length_eq_quote : String.length (var_name +:+ eq_quote) = String.length var_name + 2.
Proof. by rewrite length_app. Qed.

Hypothesis var_name_fits : (size var_name + 2 < SizeT.modulus)%N.

(** The test of the loop body is the prefix test. *)
Lemma line_test (line : string) :
  ∃ head, substr line 0 (SizeT.add (size var_name) 2) = Returned head ∧
          String.eqb head (var_name +:+ eq_quote) = is_assignment var_name line.
Proof.
  exists (str_take (String.length var_name + 2) line). split.
  - unfold substr. rewrite (proj2 (N.ltb_ge _ _)) by lia.
    rewrite add_small by done. change (N.to_nat 0) with 0. rewrite str_drop_0.
    rewrite <- (str_take_min (String.length var_name + 2)).
    do 2 f_equal. unfold size.
    rewrite N2Nat.inj_min, N2Nat.inj_add, N2Nat.inj_sub, !Nat2N.id.
    change (N.to_nat 2) with 2. change (N.to_nat 0) with 0. lia.
  - rewrite <- length_eq_quote. apply take_prefix.
Qed.

Lemma scan_loop_found (fuel : nat) (line : string) :
  ∀ content str before after,
    String.length content < fuel →
    lines_of content = before ++ line :: after →
    Forall (λ l, is_assignment var_name l = false) before →
    is_assignment var_name line = true →
    scan_loop fuel (ifstream_of content) str var_name = Returned line.
Proof.
  induction fuel as [|fuel IH]; intros content str before after Hfuel Hl Hb Hm;
    [lia |].
  simpl. unfold getline. simpl.
  destruct (extract_line content) as [l [rest|]] eqn:He.
  - apply extract_line_Some in He as (Hlines & _ & Hlen).
    rewrite Hlines in Hl.
    destruct (line_test l) as (head & -> & Htest). simpl. rewrite Htest.
    destruct before as [|b before]; simpl in Hl; injection Hl as -> Hl.
    + by rewrite Hm.
    + inversion Hb as [|? ? Hb1 Hb2]; subst. rewrite Hb1.
      apply (IH rest _ before after); (done || lia).
  - apply extract_line_None in He as (-> & Hlines & _).
    rewrite Hlines in Hl.
    destruct (empty content) eqn:Hempty; [by destruct before |].
    destruct before as [|b [|b' before]]; simpl in Hl; try done.
    injection Hl as <- <-.
    destruct (line_test content) as (head & -> & Htest).
    simpl. by rewrite Htest, Hm.
Qed.

Lemma scan_loop_not_found (fuel : nat) :
  ∀ content str,
    String.length content < fuel →
    newline_terminated content = true →
    Forall (λ l, is_assignment var_name l = false) (lines_of content) →
    scan_loop fuel (ifstream_of content) str var_name = Returned "".
Proof.
  induction fuel as [|fuel IH]; intros content str Hfuel Hnl Hall; [lia |].
  simpl. unfold getline. simpl.
  destruct (extract_line content) as [l [rest|]] eqn:He.
  - apply extract_line_Some in He as (Hlines & Hnl' & Hlen).
    rewrite Hlines in Hall. inversion Hall as [|? ? H1 H2]; subst.
    destruct (line_test l) as (head & -> & Htest). simpl.
    rewrite Htest, H1. apply IH; [lia | congruence | done].
  - apply extract_line_None in He as (-> & _ & Hempty).
    by rewrite (Hempty Hnl).
Qed.

(** The clean-up on an empty [var_line]: the second [erase] is called at
    position [npos]. *)
Lemma clean_up_empty : clean_up "" var_name = Thrown out_of_range.
Proof.
  unfold clean_up.
  assert (erase "" 0 (SizeT.add (size var_name) 2) = Returned "") as ->.
  { unfold erase. change (size "") with 0%N. simpl.
    by rewrite N.min_0_r. }
  done.
Qed.

Lemma clean_up_assignment (value : string) (c : ascii) :
  let line := var_name +:+ eq_quote +:+ value +:+ String c "" in
  (size line < SizeT.modulus)%N →
  clean_up line var_name = Returned value.
Proof.
  intros line Hsz. unfold clean_up.
  assert (String.length line =
          String.length var_name + 2 + (String.length value + 1)) as Hlen.
  { unfold line. rewrite !length_app. simpl. lia. }
  assert (erase line 0 (SizeT.add (size var_name) 2)
          = Returned (value +:+ String c "")) as ->.
  { unfold erase. rewrite (proj2 (N.ltb_ge _ _)) by lia.
    rewrite add_small by done. change (N.to_nat 0) with 0.
    rewrite str_take_0, app_empty_l.
    unfold size. rewrite N.min_l by lia.
    replace (N.to_nat _) with (String.length (var_name +:+ eq_quote))
      by (rewrite length_eq_quote; lia).
    unfold line. rewrite <- app_assoc_s. by rewrite str_drop_app. }
  simpl. unfold size in Hsz. rewrite modulus_eq in Hsz.
  assert (size (value +:+ String c "") = N.of_nat (String.length value) + 1)%N
    as Hs by (unfold size; rewrite length_app; simpl; lia).
  rewrite Hs. rewrite sub_small by (rewrite ?modulus_eq; lia).
  unfold erase. rewrite Hs. rewrite (proj2 (N.ltb_ge _ _)) by lia.
  rewrite N.min_l by lia.
  replace (N.to_nat (N.of_nat (String.length value) + 1 - 1))
    with (String.length value) by lia.
  replace (N.to_nat (N.of_nat (String.length value) + 1 - 1 + 1))
    with (String.length (value +:+ String c ""))
    by (rewrite length_app; simpl; lia).
  rewrite str_take_app.
  rewrite <- (app_empty_r (value +:+ String c "")) at 2.
  by rewrite str_drop_app, app_empty_r.
Qed.

End Scan.

(** The loop of [read_pkg_variable] always ends within its budget. *)
Lemma scan_loop_ends (var_name : string) (fuel : nat) :
  (size var_name + 2 < SizeT.modulus)%N →
  ∀ content str,
    String.length content < fuel →
    ∃ var_line, scan_loop fuel (ifstream_of content) str var_name = Returned var_line.
Proof.
  intros Hfits. induction fuel as [|fuel IH]; intros content str Hfuel; [lia |].
  simpl. unfold getline. simpl.
  destruct (extract_line content) as [l [rest|]] eqn:He.
  - apply extract_line_Some in He as (_ & _ & Hlen).
    destruct (line_test var_name Hfits l) as (head & -> & _). simpl.
    destruct (String.eqb head _); [eauto |]. apply IH. lia.
  - apply extract_line_None in He as (-> & _ & _).
    destruct (empty content) eqn:Hempty; [eauto |].
    destruct (line_test var_name Hfits content) as (head & -> & _). simpl.
    destruct (String.eqb head _); [eauto |].
    destruct fuel as [|fuel]; [destruct content; simpl in *; (done || lia) |].
    simpl. eauto.
Qed.

Section Cache.

Lemma with_cache_same (st : process_state) : with_cache (var_cache st) st = st.
Proof. by destruct st. Qed.

Lemma cache_index_present (cache : gmap string string) (key v : string) :
  cache !! key = Some v → cache_index cache key = (v, cache).
Proof. intros H. unfold cache_index. by rewrite H. Qed.

(** After [var_cache[key]] the key is in the map. *)
Lemma cache_index_inserts (cache : gmap string string) (key : string) :
  (cache_index cache key).2 !! key = Some (cache_index cache key).1.
Proof.
  unfold cache_index. destruct (cache !! key) eqn:H; simpl; [done |].
  apply lookup_insert_eq.
Qed.

Lemma cache_miss_index (st : process_state) (key : string) :
  cache_miss st key ↔ (cache_index (var_cache st) key).1 = "".
Proof.
  unfold cache_miss, cache_index. destruct (var_cache st !! key) eqn:H; simpl.
  - split; [intros Hm; by apply Hm | intros -> v [= <-]; done].
  - split; done.
Qed.

(** The body of [read_pkg_variable] after a cache miss. *)
Lemma read_pkg_variable_miss (fs : filesystem) (st : process_state)
    (pkg_name var_name repo_path : string) :
  cache_miss st (pkg_name +:+ var_name) →
  let key := pkg_name +:+ var_name in
  let cache1 := (cache_index (var_cache st) key).2 in
  let st1 := log_open (seed_path_of repo_path pkg_name) (with_cache cache1 st) in
  read_pkg_variable fs st pkg_name var_name repo_path =
  match fs_open fs (seed_path_of repo_path pkg_name) with
  | None => (Returned "", st1)
  | Some content =>
      match
        var_line ← scan_loop (S (String.length content)) (ifstream_of content)
                             "" var_name;
        clean_up var_line var_name
      with
      | Returned var_line =>
          (Returned var_line, with_cache (<[key := var_line]> cache1) st1)
      | Thrown e => (Thrown e, st1)
      | Exited n => (Exited n, st1)
      | Undefined => (Undefined, st1)
      | NoFuel => (NoFuel, st1)
      end
  end.
Proof.
  intros Hmiss. cbv zeta. apply cache_miss_index in Hmiss.
  unfold read_pkg_variable.
  pose proof (cache_index_inserts (var_cache st) (pkg_name +:+ var_name)) as Hin.
  destruct (cache_index (var_cache st) (pkg_name +:+ var_name))
    as [cached c1] eqn:Hci.
  simpl in Hmiss, Hin. subst cached. simpl.
  destruct (fs_open fs (seed_path_of repo_path pkg_name)); [| done].
  destruct (_ ≫= _); try done.
  by rewrite (cache_index_present _ _ _ Hin).
Qed.

(** The body of [read_pkg_variable] on a cache hit. *)
Lemma read_pkg_variable_hit (fs : filesystem) (st : process_state)
    (pkg_name var_name repo_path v : string) :
  var_cache st !! (pkg_name +:+ var_name) = Some v → v ≠ "" →
  read_pkg_variable fs st pkg_name var_name repo_path = (Returned v, st).
Proof.
  intros Hv Hne. unfold read_pkg_variable.
  rewrite (cache_index_present _ _ _ Hv).
  destruct v; [done |]. simpl.
  rewrite (cache_index_present _ _ _ Hv). by rewrite with_cache_same.
Qed.

Lemma cache_hit_or_miss (st : process_state) (key : string) :
  (∃ v, var_cache st !! key = Some v ∧ v ≠ "") ∨ cache_miss st key.
Proof.
  unfold cache_miss. destruct (var_cache st !! key) as [v|] eqn:H.
  - destruct (decide (v = "")) as [->|Hne].
    + right. by intros ? [= <-].
    + left. eauto.
  - by right.
Qed.

End Cache.

Section GetPkgSources.

Lemma read_file_lines (fs : filesystem) (st : process_state)
    (file_path content : string) :
  fs_open fs file_path = Some content →
  read_file fs st file_path =
  (Returned (filter (λ l, retained l = true) (lines_of content)),
   log_open file_path st).
Proof.
  intros H. unfold read_file. rewrite H.
  by rewrite read_file_loop_lines by lia.
Qed.

Lemma get_pkg_sources_loop_records (repository_lines : list string) :
  ∀ sources,
    Forall (λ l, ∃ fields, split_string l ";" = Returned fields ∧
                           3 <= length fields) repository_lines →
    ∃ records,
      get_pkg_sources_loop repository_lines sources = Returned (sources ++ records) ∧
      Forall2 parses_to repository_lines records.
Proof.
  induction repository_lines as [|l rest IH]; intros sources Hall.
  - exists []. split; [by rewrite app_nil_r | constructor].
  - inversion Hall as [|? ? (fields & Hsplit & Hlen) Hrest]; subst.
    destruct fields as [|f0 [|f1 [|f2 more]]]; simpl in Hlen; try lia.
    destruct (IH (sources ++ [mk_pkg_source f0 f1 f2]) Hrest)
      as (records & Hloop & Hrec).
    exists (mk_pkg_source f0 f1 f2 :: records). split.
    + simpl. rewrite Hsplit. simpl. rewrite Hloop. by rewrite <- app_assoc.
    + constructor; [| done]. exists (f0 :: f1 :: f2 :: more). by repeat split.
Qed.

End GetPkgSources.

Section Locate.

Variable fs : filesystem.
Variable pkg_name : string.

(** Every record is in exactly one of three cases. *)
Lemma seed_cases (s : pkg_source) :
  has_seed fs pkg_name s ∨ no_seed fs pkg_name s ∨ status_fails fs pkg_name s.
Proof.
  unfold has_seed, no_seed, status_fails, exists_, is_regular_file.
  destruct (fs_status fs _); auto.
Qed.

Lemma no_seed_not_has_seed (s : pkg_source) :
  no_seed fs pkg_name s → ¬ has_seed fs pkg_name s.
Proof. intros [H | [_ H]] [H1 H2]; congruence. Qed.

Lemma status_fails_throws (s : pkg_source) :
  status_fails fs pkg_name s ↔
  exists_ fs (seed_path_of (path s) pkg_name) = Thrown filesystem_error.
Proof.
  unfold status_fails, exists_. destruct (fs_status fs _); split; congruence.
Qed.

(** One pass of the loop. *)
Lemma locate_pkg_repo_cons (s : pkg_source) (rest : list pkg_source) :
  (has_seed fs pkg_name s →
   locate_pkg_repo fs pkg_name (s :: rest) = Returned s) ∧
  (no_seed fs pkg_name s →
   locate_pkg_repo fs pkg_name (s :: rest) = locate_pkg_repo fs pkg_name rest) ∧
  (status_fails fs pkg_name s →
   locate_pkg_repo fs pkg_name (s :: rest) = Thrown filesystem_error).
Proof.
  split; [| split].
  - intros [He Hr]. simpl. rewrite He. simpl. by rewrite Hr.
  - intros [He | [He Hr]]; simpl; rewrite He; simpl; [done |]. by rewrite Hr.
  - intros Hs. apply status_fails_throws in Hs. simpl. by rewrite Hs.
Qed.

Lemma locate_pkg_repo_skip (before rest : list pkg_source) :
  Forall (no_seed fs pkg_name) before →
  locate_pkg_repo fs pkg_name (before ++ rest) = locate_pkg_repo fs pkg_name rest.
Proof.
  induction 1 as [|r before Hr _ IH]; [done |].
  change ((r :: before) ++ rest) with (r :: (before ++ rest)).
  destruct (locate_pkg_repo_cons r (before ++ rest)) as (_ & Hskip & _).
  by rewrite (Hskip Hr).
Qed.

(** Where the loop stops: at the first record that is not skipped, if any. *)
Lemma first_stop (package_sources : list pkg_source) :
  Forall (no_seed fs pkg_name) package_sources ∨
  ∃ before s after,
    package_sources = before ++ s :: after ∧
    Forall (no_seed fs pkg_name) before ∧
    (has_seed fs pkg_name s ∨ status_fails fs pkg_name s).
Proof.
  induction package_sources as [|r rest IH]; [by left |].
  destruct (seed_cases r) as [Hr | [Hr | Hr]].
  - right. exists [], r, rest. auto.
  - destruct IH as [Hall | (before & s & after & -> & Hb & Hs)].
    + left. by constructor.
    + right. exists (r :: before), s, after. repeat split; [by constructor | done].
  - right. exists [], r, rest. auto.
Qed.

End Locate.

(** * The claims *)

(** C9: a repository source record is valid exactly when at least one of
    its three attributes [name], [url], [path] is non-empty; the only invalid
    record is the one with three empty attributes. *)
Theorem is_valid_iff_some_attribute (s : pkg_source) :
  (is_valid s = true ↔ name s ≠ "" ∨ url s ≠ "" ∨ path s ≠ "") ∧
  (is_valid s = false ↔ s = pkg_source_default).
Proof.
  destruct s as [[|a n] [|b u] [|c p]]; unfold is_valid; simpl;
    (split; split; intros H; try done;
     try (by left); try (by right; left); try (by right; right));
    by destruct H as [|[|]].
Qed.

(** C3, as stated, fails: the directory [/a] of the first record may not be
    searched, so the status query on [/a/p/seed.sh] fails and
    [std::filesystem::exists] throws.  The exception leaves
    [locate_pkg_repo]: the call returns neither the second record, whose
    [/r/p/seed.sh] is a regular file, nor the default record. *)
Lemma locate_pkg_repo_status_error_escapes :
  has_seed (fs_a_denied [(seed_sh, "")]) "p" (mk_pkg_source "b" "https://b" "/r") ∧
  locate_pkg_repo (fs_a_denied [(seed_sh, "")]) "p" three_repos
  = Thrown filesystem_error ∧
  ∀ s, locate_pkg_repo (fs_a_denied [(seed_sh, "")]) "p" three_repos ≠ Returned s.
Proof. split; [by split | split; [by vm_compute | by intros s]]. Qed.

(** C3, amended: as long as the status of [path/package/seed.sh] can be
    queried for the records it looks at, [locate_pkg_repo] returns the first
    record, in input order, for which that path exists and is a regular file,
    whatever comes after it; when no record has one it returns the default
    record, whose [name], [url] and [path] are empty.  When the first record
    that is not skipped is one whose status query fails,
    [std::filesystem::filesystem_error] leaves the function.  One of the
    three is the case for every list of records. *)
Theorem locate_pkg_repo_first_match (fs : filesystem) (pkg_name : string)
    (package_sources : list pkg_source) :
  (∀ before s after,
      package_sources = before ++ s :: after →
      Forall (no_seed fs pkg_name) before →
      has_seed fs pkg_name s →
      locate_pkg_repo fs pkg_name package_sources = Returned s) ∧
  (Forall (no_seed fs pkg_name) package_sources →
   locate_pkg_repo fs pkg_name package_sources = Returned pkg_source_default) ∧
  (∀ before s after,
      package_sources = before ++ s :: after →
      Forall (no_seed fs pkg_name) before →
      status_fails fs pkg_name s →
      locate_pkg_repo fs pkg_name package_sources = Thrown filesystem_error) ∧
  (Forall (no_seed fs pkg_name) package_sources ∨
   ∃ before s after,
     package_sources = before ++ s :: after ∧
     Forall (no_seed fs pkg_name) before ∧
     (has_seed fs pkg_name s ∨ status_fails fs pkg_name s)) ∧
  name pkg_source_default = "" ∧ url pkg_source_default = "" ∧
  path pkg_source_default = "".
Proof.
  split; [| split; [| split; [| split; [apply first_stop | done]]]].
  - intros before s after -> Hb Hs. rewrite locate_pkg_repo_skip by done.
    by apply locate_pkg_repo_cons.
  - intros Hall. rewrite <- (app_nil_r package_sources).
    by rewrite locate_pkg_repo_skip.
  - intros before s after -> Hb Hs. rewrite locate_pkg_repo_skip by done.
    by apply locate_pkg_repo_cons.
Qed.

Lemma locate_pkg_repo_first_match_witness :
  locate_pkg_repo (fs_of [(seed_sh, "")]) "p" three_repos
  = Returned (mk_pkg_source "b" "https://b" "/r").
Proof.
  apply (proj1 (locate_pkg_repo_first_match (fs_of [(seed_sh, "")]) "p" three_repos)
           [mk_pkg_source "a" "https://a" "/a"] _
           [mk_pkg_source "c" "https://c" "/r"]).
  - reflexivity.
  - constructor; [| constructor]. left. vm_compute. reflexivity.
  - split; vm_compute; reflexivity.
Defined.

(** C4: for a non-empty delimiter, [split_string] returns the pieces obtained
    by cutting the text at the leftmost occurrence of the delimiter again and
    again, and the remainder after the last cut only when it is not empty.
    The text is shorter than [npos], as every [std::string] is.  The four
    sample splits of the specification come out as it says. *)
Theorem split_string_cuts_leftmost :
  (∀ text delimiter,
      delimiter ≠ "" → (size text < SizeT.npos)%N →
      ∃ pieces,
        split_string text delimiter = Returned pieces ∧
        cuts delimiter text pieces ∧
        ∀ pieces', cuts delimiter text pieces' → pieces' = pieces) ∧
  split_string "a;b;c" ";" = Returned ["a"; "b"; "c"] ∧
  split_string "a;;c" ";" = Returned ["a"; ""; "c"] ∧
  split_string "a;" ";" = Returned ["a"] ∧
  split_string "" ";" = Returned [].
Proof.
  split; [| by vm_compute].
  intros text delimiter Hd Hsz.
  destruct (split_string_fuel_cuts delimiter Hd (S (String.length text)) text)
    as (pieces & E & Hcuts); [lia | done |].
  exists pieces. split; [done |]. split; [done |].
  intros pieces' H'. by apply (cuts_unique delimiter text).
Qed.

Lemma split_string_cuts_leftmost_witness :
  ∃ pieces, split_string "a--b-c--" "--" = Returned pieces ∧
            cuts "--" "a--b-c--" pieces ∧
            ∀ pieces', cuts "--" "a--b-c--" pieces' → pieces' = pieces.
Proof.
  apply (proj1 split_string_cuts_leftmost "a--b-c--" "--").
  - discriminate.
  - vm_compute. reflexivity.
Defined.

(** C7: when the file cannot be opened, [read_file] writes
    [File [<path> can't be opened!] and a newline to the standard output and
    ends the process with exit status 2; it does not return. *)
Theorem read_file_open_failure (fs : filesystem) (st : process_state)
    (file_path : string) :
  fs_open fs file_path = None →
  (read_file fs st file_path).1 = Exited 2 ∧
  stdout (read_file fs st file_path).2
  = stdout st +:+ "File [" +:+ file_path +:+ " can't be opened!" +:+ nl ∧
  ∀ lines, (read_file fs st file_path).1 ≠ Returned lines.
Proof.
  intros H. unfold read_file. rewrite H. simpl. done.
Qed.

Lemma read_file_open_failure_witness :
  (read_file (fs_of []) initial_state "/etc/birb-sources.conf").1 = Exited 2 ∧
  stdout (read_file (fs_of []) initial_state "/etc/birb-sources.conf").2
  = stdout initial_state +:+ "File [" +:+ "/etc/birb-sources.conf" +:+
    " can't be opened!" +:+ nl ∧
  ∀ lines,
    (read_file (fs_of []) initial_state "/etc/birb-sources.conf").1 ≠ Returned lines.
Proof.
  apply (read_file_open_failure (fs_of []) initial_state "/etc/birb-sources.conf").
  reflexivity.
Defined.

(** C8: when every retained line of the configuration file (not empty, not
    starting with [#]) splits on [;] into at least three fields,
    [get_pkg_sources] returns one record per retained line, in file order,
    with field 0 as [name], field 1 as [url] and field 2 as [path]. *)
Theorem get_pkg_sources_one_record_per_line (config_path : string)
    (fs : filesystem) (st : process_state) (content : string) :
  fs_open fs config_path = Some content →
  Forall (λ l, ∃ fields, split_string l ";" = Returned fields ∧
                         3 <= length fields)
         (filter (λ l, retained l = true) (lines_of content)) →
  ∃ records,
    (get_pkg_sources config_path fs st).1 = Returned records ∧
    Forall2 parses_to (filter (λ l, retained l = true) (lines_of content)) records.
Proof.
  intros Hopen Hall. unfold get_pkg_sources.
  rewrite (read_file_lines _ _ _ _ Hopen). simpl.
  destruct (get_pkg_sources_loop_records _ [] Hall) as (records & -> & Hrec).
  by exists records.
Qed.

Lemma get_pkg_sources_one_record_per_line_witness :
  ∃ records,
    (get_pkg_sources "/etc/birb-sources.conf"
       (fs_of [("/etc/birb-sources.conf", sources_conf)]) initial_state).1
    = Returned records ∧
    Forall2 parses_to
      (filter (λ l, retained l = true) (lines_of sources_conf)) records.
Proof.
  apply (get_pkg_sources_one_record_per_line "/etc/birb-sources.conf"
           (fs_of [("/etc/birb-sources.conf", sources_conf)]) initial_state
           sources_conf).
  - reflexivity.
  - vm_compute. repeat constructor.
    + exists ["pkgsA"; "https://x"; "/repo/a"]. split; [reflexivity | simpl; lia].
    + exists ["pkgsB"; "https://y"; "/repo/b"; "extra"]. split; [reflexivity | simpl; lia].
Defined.

(** C10: after every call of [read_pkg_variable], however it ends, the
    cache holds an entry under the key [pkg_name ++ var_name]; on the
    open-failure path nothing is stored explicitly, and the entry is the empty
    string that the first look-up [var_cache[key]] inserted. *)
Theorem read_pkg_variable_leaves_cache_entry (fs : filesystem)
    (st : process_state) (pkg_name var_name repo_path : string) :
  is_Some (var_cache (read_pkg_variable fs st pkg_name var_name repo_path).2
             !! (pkg_name +:+ var_name)) ∧
  (var_cache st !! (pkg_name +:+ var_name) = None →
   fs_open fs (seed_path_of repo_path pkg_name) = None →
   (read_pkg_variable fs st pkg_name var_name repo_path).1 = Returned "" ∧
   var_cache (read_pkg_variable fs st pkg_name var_name repo_path).2
   = <[pkg_name +:+ var_name := ""]> (var_cache st)).
Proof.
  split.
  - destruct (cache_hit_or_miss st (pkg_name +:+ var_name)) as [(v & Hv & Hne) | Hmiss].
    + rewrite (read_pkg_variable_hit _ _ _ _ _ _ Hv Hne). simpl. eauto.
    + rewrite (read_pkg_variable_miss _ _ _ _ _ Hmiss).
      pose proof (cache_index_inserts (var_cache st) (pkg_name +:+ var_name)) as Hin.
      destruct (fs_open fs _); [| simpl; eauto].
      destruct (_ ≫= _); simpl; eauto.
      rewrite lookup_insert_eq. eauto.
  - intros Hnone Hopen.
    assert (cache_miss st (pkg_name +:+ var_name)) as Hmiss
      by (intros v Hv; congruence).
    rewrite (read_pkg_variable_miss _ _ _ _ _ Hmiss), Hopen. simpl.
    unfold cache_index. by rewrite Hnone.
Qed.

Lemma read_pkg_variable_leaves_cache_entry_witness :
  (read_pkg_variable (fs_of []) initial_state "p" "DEPENDS" "/r").1 = Returned "" ∧
  var_cache (read_pkg_variable (fs_of []) initial_state "p" "DEPENDS" "/r").2
  = <["p" +:+ "DEPENDS" := ""]> (var_cache initial_state).
Proof.
  apply (proj2 (read_pkg_variable_leaves_cache_entry
                  (fs_of []) initial_state "p" "DEPENDS" "/r"));
    reflexivity.
Defined.

(** C6, as stated, fails: once a value is cached the path is not even
    tried.  After a first call has read [DEPENDS] from the script, the script
    is removed; the path cannot be opened, and the call returns the cached
    value, not the empty string. *)
Lemma read_pkg_variable_unopenable_but_cached :
  fs_open (fs_of []) (seed_path_of "/r" "p") = None ∧
  (read_pkg_variable (fs_of [])
     (read_pkg_variable (fs_of [(seed_sh, script_foo_bar)]) initial_state
        "p" "DEPENDS" "/r").2
     "p" "DEPENDS" "/r").1 = Returned "foo bar" ∧
  "foo bar" ≠ "".
Proof. split; [| split]; [reflexivity | by vm_compute | discriminate]. Qed.

(** C6, amended: when no non-empty value is cached under
    [pkg_name ++ var_name] and the build script cannot be opened,
    [read_pkg_variable] returns the empty string; it writes nothing to the
    standard output and the process goes on. *)
Theorem read_pkg_variable_open_failure (fs : filesystem) (st : process_state)
    (pkg_name var_name repo_path : string) :
  cache_miss st (pkg_name +:+ var_name) →
  fs_open fs (seed_path_of repo_path pkg_name) = None →
  (read_pkg_variable fs st pkg_name var_name repo_path).1 = Returned "" ∧
  stdout (read_pkg_variable fs st pkg_name var_name repo_path).2 = stdout st.
Proof.
  intros Hmiss Hopen.
  rewrite (read_pkg_variable_miss _ _ _ _ _ Hmiss), Hopen. done.
Qed.

Lemma read_pkg_variable_open_failure_witness :
  (read_pkg_variable (fs_of []) initial_state "p" "DEPENDS" "/r").1 = Returned "" ∧
  stdout (read_pkg_variable (fs_of []) initial_state "p" "DEPENDS" "/r").2
  = stdout initial_state.
Proof.
  apply (read_pkg_variable_open_failure (fs_of []) initial_state "p" "DEPENDS" "/r").
  - intros v Hv. vm_compute in Hv. discriminate.
  - reflexivity.
Defined.

(** C5, as stated, fails for a call that returned the empty string: the
    value of [DEPENDS] in the script is empty, the first call returns it, the
    script is then replaced, and the second call reads the file again and
    returns the new value. *)
Lemma read_pkg_variable_empty_value_is_read_again :
  (read_pkg_variable (fs_of [(seed_sh, script_empty_value)]) initial_state
     "p" "DEPENDS" "/r").1 = Returned "" ∧
  (read_pkg_variable (fs_of [(seed_sh, script_baz)])
     (read_pkg_variable (fs_of [(seed_sh, script_empty_value)]) initial_state
        "p" "DEPENDS" "/r").2
     "p" "DEPENDS" "/r").1 = Returned "baz" ∧
  open_calls
    (read_pkg_variable (fs_of [(seed_sh, script_baz)])
       (read_pkg_variable (fs_of [(seed_sh, script_empty_value)]) initial_state
          "p" "DEPENDS" "/r").2
       "p" "DEPENDS" "/r").2 = [seed_sh; seed_sh].
Proof. by vm_compute. Qed.

(** C5, amended: after a call of [read_pkg_variable] has returned a
    non-empty value, a second call with the same arguments returns the same
    value whatever the file system holds by then, and leaves the process
    state as it was: no path is opened and the cache is unchanged. *)
Theorem read_pkg_variable_second_call_cached (fs fs' : filesystem)
    (st st' : process_state) (pkg_name var_name repo_path v : string) :
  v ≠ "" →
  read_pkg_variable fs st pkg_name var_name repo_path = (Returned v, st') →
  read_pkg_variable fs' st' pkg_name var_name repo_path = (Returned v, st').
Proof.
  intros Hne Hfirst.
  apply read_pkg_variable_hit; [| done].
  destruct (cache_hit_or_miss st (pkg_name +:+ var_name)) as [(c & Hc & Hcne) | Hmiss].
  - rewrite (read_pkg_variable_hit _ _ _ _ _ _ Hc Hcne) in Hfirst.
    by injection Hfirst as -> ->.
  - rewrite (read_pkg_variable_miss _ _ _ _ _ Hmiss) in Hfirst.
    destruct (fs_open fs _).
    + destruct (_ ≫= _); try done.
      injection Hfirst as -> <-. simpl. apply lookup_insert_eq.
    + by injection Hfirst as <- _.
Qed.

Lemma read_pkg_variable_second_call_cached_witness :
  read_pkg_variable (fs_of [])
    (read_pkg_variable (fs_of [(seed_sh, script_foo_bar)]) initial_state
       "p" "DEPENDS" "/r").2
    "p" "DEPENDS" "/r"
  = (Returned "foo bar",
     (read_pkg_variable (fs_of [(seed_sh, script_foo_bar)]) initial_state
        "p" "DEPENDS" "/r").2).
Proof.
  apply (read_pkg_variable_second_call_cached
           (fs_of [(seed_sh, script_foo_bar)]) (fs_of []) initial_state).
  - discriminate.
  - vm_compute. reflexivity.
Defined.

(** C2, as stated, fails: the script opens and its first assignment of
    [DEPENDS] holds [baz], but an earlier call cached [foo bar] under the same
    key, and the call returns the cached value without scanning the file. *)
Lemma read_pkg_variable_cached_value_wins :
  fs_open (fs_of [(seed_sh, script_baz)]) (seed_path_of "/r" "p")
  = Some script_baz ∧
  lines_of script_baz = ["DEPENDS=" +:+ quoted "baz"] ∧
  (read_pkg_variable (fs_of [(seed_sh, script_baz)])
     (read_pkg_variable (fs_of [(seed_sh, script_foo_bar)]) initial_state
        "p" "DEPENDS" "/r").2
     "p" "DEPENDS" "/r").1 = Returned "foo bar" ∧
  "foo bar" ≠ "baz".
Proof. repeat split; (by vm_compute) || discriminate. Qed.

(** C2, amended: when no non-empty value is cached under
    [pkg_name ++ var_name], the build script opens, and its first line that
    starts with the variable name, an equals sign and a double quote goes on
    with a value and one last character, [read_pkg_variable] returns the
    value: that line without its first [len(var_name)+2] characters and
    without its last one.  The value is then cached under the key.  The line
    is shorter than [2^64], as every [std::string] is. *)
Theorem read_pkg_variable_first_assignment (fs : filesystem)
    (st : process_state) (pkg_name var_name repo_path content : string)
    (before after : list string) (value : string) (last : ascii) :
  cache_miss st (pkg_name +:+ var_name) →
  fs_open fs (seed_path_of repo_path pkg_name) = Some content →
  lines_of content
  = before ++ (var_name +:+ eq_quote +:+ value +:+ String last "") :: after →
  Forall (λ l, is_assignment var_name l = false) before →
  (size (var_name +:+ eq_quote +:+ value +:+ String last "") < SizeT.modulus)%N →
  (read_pkg_variable fs st pkg_name var_name repo_path).1 = Returned value ∧
  var_cache (read_pkg_variable fs st pkg_name var_name repo_path).2
    !! (pkg_name +:+ var_name) = Some value.
Proof.
  intros Hmiss Hopen Hlines Hbefore Hsz.
  assert (size var_name + 2 < SizeT.modulus)%N as Hfits.
  { rewrite <- app_assoc_s in Hsz. rewrite size_app in Hsz.
    unfold size in *. rewrite length_eq_quote in Hsz. lia. }
  rewrite (read_pkg_variable_miss _ _ _ _ _ Hmiss), Hopen.
  rewrite (scan_loop_found var_name Hfits _
             (var_name +:+ eq_quote +:+ value +:+ String last "")
             content "" before after);
    [| lia | done | done |].
  - simpl. rewrite (clean_up_assignment var_name Hfits value last Hsz).
    simpl. split; [done |]. apply lookup_insert_eq.
  - unfold is_assignment. apply prefix_app. exists (value +:+ String last "").
    by rewrite app_assoc_s.
Qed.

Lemma read_pkg_variable_first_assignment_witness :
  (read_pkg_variable (fs_of [(seed_sh, script_foo_bar)]) initial_state
     "p" "DEPENDS" "/r").1 = Returned "foo bar" ∧
  var_cache (read_pkg_variable (fs_of [(seed_sh, script_foo_bar)]) initial_state
               "p" "DEPENDS" "/r").2
    !! ("p" +:+ "DEPENDS") = Some "foo bar".
Proof.
  apply (read_pkg_variable_first_assignment
           (fs_of [(seed_sh, script_foo_bar)]) initial_state
           "p" "DEPENDS" "/r" script_foo_bar
           ["NAME=" +:+ quoted "p"] ["build"] "foo bar" dquote).
  - intros v Hv. vm_compute in Hv. discriminate.
  - reflexivity.
  - reflexivity.
  - repeat constructor.
  - vm_compute. reflexivity.
Defined.

(** When every line of the script ends in a newline and none assigns the
    variable, the loop leaves [var_line] empty and the clean-up throws. *)
Lemma read_pkg_variable_not_found_throws (fs : filesystem) (st : process_state)
    (pkg_name var_name repo_path content : string) :
  cache_miss st (pkg_name +:+ var_name) →
  fs_open fs (seed_path_of repo_path pkg_name) = Some content →
  newline_terminated content = true →
  Forall (λ l, is_assignment var_name l = false) (lines_of content) →
  (size var_name + 2 < SizeT.modulus)%N →
  (read_pkg_variable fs st pkg_name var_name repo_path).1 = Thrown out_of_range.
Proof.
  intros Hmiss Hopen Hnl Hnone Hfits.
  rewrite (read_pkg_variable_miss _ _ _ _ _ Hmiss), Hopen.
  rewrite (scan_loop_not_found var_name Hfits) by (lia || done).
  simpl. by rewrite clean_up_empty.
Qed.

(** C1: the script opens and no line assigns [DEPENDS]; the clean-up then
    runs on an empty [var_line], its second [erase] is called at position
    [size() - 1 = npos], and [std::out_of_range] leaves the function: the call
    does not return the empty string. *)
Theorem read_pkg_variable_no_assignment_throws :
  fs_open (fs_of [(seed_sh, script_no_depends)]) (seed_path_of "/r" "p")
  = Some script_no_depends ∧
  Forall (λ l, is_assignment "DEPENDS" l = false) (lines_of script_no_depends) ∧
  SizeT.sub (size "") 1 = SizeT.npos ∧
  (read_pkg_variable (fs_of [(seed_sh, script_no_depends)]) initial_state
     "p" "DEPENDS" "/r").1 = Thrown out_of_range.
Proof.
  split; [reflexivity |]. split; [vm_compute; repeat constructor |].
  split; [reflexivity |].
  apply read_pkg_variable_not_found_throws with (content := script_no_depends).
  - intros v Hv. vm_compute in Hv. discriminate.
  - reflexivity.
  - reflexivity.
  - vm_compute. repeat constructor.
  - reflexivity.
Qed.

(** * Further runs *)

Example read_file_sample :
  (read_file (fs_of [("/c", "# comment" +:+ nl +:+ nl +:+ "foo" +:+ nl +:+ "bar" +:+ nl)])
     initial_state "/c").1 = Returned ["foo"; "bar"].
Proof. by vm_compute. Qed.

Example lines_of_sample :
  lines_of ("a" +:+ nl +:+ nl +:+ "b") = ["a"; ""; "b"] ∧
  lines_of ("a" +:+ nl +:+ "b" +:+ nl) = ["a"; "b"] ∧
  lines_of nl = [""] ∧ lines_of "" = [].
Proof. by vm_compute. Qed.

(** The clean-up faults as well on an empty script and on an assignment that
    stops right after the opening quote. *)
Example read_pkg_variable_empty_script :
  (read_pkg_variable (fs_of [(seed_sh, "")]) initial_state "p" "DEPENDS" "/r").1
  = Thrown out_of_range ∧
  (read_pkg_variable (fs_of [(seed_sh, script_bare_prefix)]) initial_state
     "p" "DEPENDS" "/r").1 = Thrown out_of_range.
Proof. by vm_compute. Qed.

(** When the last line has no newline and nothing was found, [var_line] still
    holds that line after the loop, and the clean-up trims it. *)
Example read_pkg_variable_unterminated_last_line :
  (read_pkg_variable (fs_of [(seed_sh, script_long_last_line)]) initial_state
     "p" "DEPENDS" "/r").1 = Returned "_LONG=abcde".
Proof. by vm_compute. Qed.

(** * Further properties *)

Section SplitMore.

Variable delimiter : string.

Lemma no_cut_find (text : string) :
  (∀ pre rest, ¬ cut_here delimiter text pre rest) →
  find text delimiter = SizeT.npos.
Proof.
  intros Hno. unfold find.
  destruct (find_index text delimiter) as [p|] eqn:Hp; [| done].
  apply find_index_Some in Hp as (pre & rest & [Hc _] & _).
  by destruct (Hno pre rest).
Qed.

Hypothesis delimiter_not_empty : delimiter ≠ "".

Lemma delimiter_length : 0 < String.length delimiter.
Proof. destruct delimiter; simpl; [done | lia]. Qed.

Lemma cuts_pieces_clean (text : string) (pieces : list string) :
  cuts delimiter text pieces →
  Forall (λ p, ∀ pre rest, ¬ cut_here delimiter p pre rest) pieces.
Proof.
  induction 1 as [text Hno | text pre rest pieces [Hc Hl] Hrest IH].
  - destruct (empty text); by repeat constructor.
  - constructor; [| done]. intros a b Hab.
    unfold cut_here in Hab, Hc.
    assert (cut_here delimiter text a (b +:+ delimiter +:+ rest)) as Hc'.
    { unfold cut_here. rewrite Hc, Hab. by rewrite !app_assoc_s. }
    specialize (Hl _ _ Hc'). rewrite Hab, !length_app in Hl.
    pose proof delimiter_length. lia.
Qed.

Lemma cuts_join (text : string) (pieces : list string) :
  cuts delimiter text pieces →
  (pieces = [] ∧ text = "") ∨
  (pieces ≠ [] ∧ (text = String.concat delimiter pieces ∨
                  text = String.concat delimiter pieces +:+ delimiter)).
Proof.
  induction 1 as [text Hno | text pre rest pieces [Hc _] Hrest IH].
  - destruct text as [|c t]; simpl; [by left |]. right. split; [done | by left].
  - right. split; [done |]. unfold cut_here in Hc.
    destruct IH as [[-> ->] | [Hne [Hj | Hj]]].
    + right. simpl. by rewrite Hc, app_empty_r.
    + left. destruct pieces as [|q qs]; [done |].
      change (String.concat delimiter (pre :: q :: qs))
        with (pre +:+ delimiter +:+ String.concat delimiter (q :: qs)).
      by rewrite <- Hj.
    + right. destruct pieces as [|q qs]; [done |].
      change (String.concat delimiter (pre :: q :: qs))
        with (pre +:+ delimiter +:+ String.concat delimiter (q :: qs)).
      rewrite !app_assoc_s. by rewrite <- Hj.
Qed.

Lemma split_string_cuts (text : string) (pieces : list string) :
  (size text < SizeT.npos)%N →
  split_string text delimiter = Returned pieces →
  cuts delimiter text pieces.
Proof.
  intros Hsz Hsplit.
  destruct (split_string_fuel_cuts delimiter delimiter_not_empty
              (S (String.length text)) text) as (ps & E & Hcuts); [lia | done |].
  unfold split_string in Hsplit. rewrite E in Hsplit. by injection Hsplit as <-.
Qed.

Lemma cuts_split_string (text : string) (pieces : list string) :
  (size text < SizeT.npos)%N →
  cuts delimiter text pieces →
  split_string text delimiter = Returned pieces.
Proof.
  intros Hsz Hcuts.
  destruct (split_string_fuel_cuts delimiter delimiter_not_empty
              (S (String.length text)) text) as (ps & E & Hcuts'); [lia | done |].
  unfold split_string. rewrite E. f_equal. by eapply cuts_unique.
Qed.

End SplitMore.

(** X1: with an empty delimiter every pass of the loop finds the delimiter
    at position 0, appends an empty piece and leaves the text as it is, so
    the loop is never left and [split_string] does not return. *)
Theorem split_string_empty_delimiter_loops (fuel : nat) (text : string)
    (result : list string) :
  split_loop (S fuel) text "" result = split_loop fuel text "" (result ++ [""]) ∧
  split_string_fuel fuel text "" = NoFuel.
Proof.
  split; [| apply split_string_empty_delimiter].
  assert (find text "" = 0%N) as Hfind by (by destruct text).
  simpl. rewrite Hfind. simpl.
  assert (substr text 0 0 = Returned "") as ->.
  { unfold substr. rewrite (proj2 (N.ltb_ge _ _)) by lia.
    rewrite N.min_l by lia. by destruct text. }
  assert (erase text 0 (SizeT.add 0 (size "")) = Returned text) as ->.
  { unfold erase. rewrite (proj2 (N.ltb_ge _ _)) by lia.
    change (SizeT.add 0 (size "")) with 0%N.
    rewrite N.min_l by lia. by destruct text. }
  done.
Qed.

(** X2: no piece that [split_string] returns contains the delimiter. *)
Theorem split_string_pieces_without_delimiter (text delimiter : string)
    (pieces : list string) :
  delimiter ≠ "" → (size text < SizeT.npos)%N →
  split_string text delimiter = Returned pieces →
  Forall (λ p, ∀ pre rest, p ≠ pre +:+ delimiter +:+ rest) pieces.
Proof.
  intros Hd Hsz Hsplit.
  apply (cuts_pieces_clean delimiter Hd text).
  by apply split_string_cuts.
Qed.

Lemma split_string_pieces_without_delimiter_witness :
  Forall (λ p, ∀ pre rest, p ≠ pre +:+ "--" +:+ rest) ["a"; "b-c"].
Proof.
  apply (split_string_pieces_without_delimiter "a--b-c--" "--").
  - discriminate.
  - vm_compute. reflexivity.
  - vm_compute. reflexivity.
Defined.

(** X3: joining the returned pieces with the delimiter gives the text back,
    up to one delimiter at the end of the text, which is lost; no piece is
    returned only for the empty text. *)
Theorem split_string_join (text delimiter : string) (pieces : list string) :
  delimiter ≠ "" → (size text < SizeT.npos)%N →
  split_string text delimiter = Returned pieces →
  (text = String.concat delimiter pieces ∨
   text = String.concat delimiter pieces +:+ delimiter) ∧
  (pieces = [] ↔ text = "").
Proof.
  intros Hd Hsz Hsplit.
  destruct (cuts_join delimiter text pieces) as [[-> ->] | [Hne Hj]].
  - by apply split_string_cuts.
  - split; [by left | done].
  - split; [done |]. split; [done |]. intros ->.
    apply split_string_cuts in Hsplit; [| done | done].
    inversion Hsplit as [? Hno | ? pre rest ? [Hc _] ?]; subst; [done |].
    apply cut_here_length in Hc. pose proof (delimiter_length delimiter Hd).
    simpl in Hc. lia.
Qed.

Lemma split_string_join_witness :
  ("a;;" = String.concat ";" ["a"; ""] ∨
   "a;;" = String.concat ";" ["a"; ""] +:+ ";") ∧
  (["a"; ""] = [] ↔ "a;;" = "").
Proof.
  apply (split_string_join "a;;" ";" ["a"; ""]).
  - discriminate.
  - vm_compute. reflexivity.
  - vm_compute. reflexivity.
Defined.

(** X4: when the delimiter does not occur in the text, [split_string] returns
    the whole text as the only piece, and no piece when the text is empty. *)
Theorem split_string_without_delimiter (text delimiter : string) :
  (∀ pre rest, text ≠ pre +:+ delimiter +:+ rest) →
  split_string text delimiter = Returned (if empty text then [] else [text]).
Proof.
  intros Hno. unfold split_string, split_string_fuel. simpl.
  rewrite (no_cut_find delimiter text Hno). simpl.
  by destruct (empty text).
Qed.

Lemma split_string_without_delimiter_witness :
  split_string "abc" ";" = Returned ["abc"].
Proof.
  apply (split_string_without_delimiter "abc" ";").
  intros pre rest H.
  destruct pre as [|a [|b [|c [|d pre]]]]; vm_compute in H; congruence.
Defined.

Section SingleChar.

Variable c : ascii.

Lemma contains_char_app (a b : string) :
  contains_char c (a +:+ b) = contains_char c a || contains_char c b.
Proof.
  induction a as [|x a IH]; [done |].
  rewrite app_cons. simpl. rewrite IH. by rewrite orb_assoc.
Qed.

Lemma contains_char_cut (p pre rest : string) :
  contains_char c p = false → ¬ cut_here (String c "") p pre rest.
Proof.
  intros Hp ->. rewrite !contains_char_app in Hp. simpl in Hp.
  rewrite Ascii.eqb_refl in Hp. simpl in Hp.
  by rewrite orb_true_r in Hp.
Qed.

(** In [p c rest], with no [c] in [p], the leftmost [c] is the one after [p]. *)
Lemma leftmost_after_clean (p rest : string) :
  contains_char c p = false →
  leftmost_cut (String c "") (p +:+ String c "" +:+ rest) p rest.
Proof.
  intros Hp. split; [done |].
  induction p as [|x p IH]; intros pre' rest' Hc; [simpl; lia |].
  simpl in Hp. apply orb_false_elim in Hp as [Hx Hp].
  unfold cut_here in Hc. rewrite app_cons in Hc.
  destruct pre' as [|y pre'].
  - rewrite app_empty_l, app_cons in Hc. injection Hc as -> _.
    by rewrite Ascii.eqb_refl in Hx.
  - rewrite app_cons in Hc. injection Hc as _ Hc.
    specialize (IH Hp pre' rest' Hc). simpl. lia.
Qed.

Lemma cuts_of_join (pieces : list string) :
  pieces ≠ [] →
  Forall (λ p, contains_char c p = false) pieces →
  last pieces ≠ Some "" →
  cuts (String c "") (String.concat (String c "") pieces) pieces.
Proof.
  induction pieces as [|p [|q qs] IH]; intros Hne Hall Hlast; [done | |].
  - simpl. inversion Hall as [|? ? Hp _]; subst.
    destruct p as [|x p]; [done |].
    apply (cuts_done (String c "") (String x p)).
    intros pre rest. by apply contains_char_cut.
  - inversion Hall as [|? ? Hp Hrest]; subst.
    change (String.concat (String c "") (p :: q :: qs))
      with (p +:+ String c "" +:+ String.concat (String c "") (q :: qs)).
    eapply cuts_step; [by apply leftmost_after_clean |].
    apply IH; done.
Qed.

End SingleChar.

(** X5: for a delimiter of one character, splitting the join of pieces that
    do not hold that character, the last of them not empty, gives the pieces
    back. *)
Theorem split_string_of_join (c : ascii) (pieces : list string) :
  pieces ≠ [] →
  Forall (λ p, contains_char c p = false) pieces →
  last pieces ≠ Some "" →
  (size (String.concat (String c "") pieces) < SizeT.npos)%N →
  split_string (String.concat (String c "") pieces) (String c "") = Returned pieces.
Proof.
  intros Hne Hall Hlast Hsz.
  apply cuts_split_string; [done | done |].
  by apply cuts_of_join.
Qed.

Lemma split_string_of_join_witness :
  split_string (String.concat ";" ["pkgs"; ""; "/repo"]) ";"
  = Returned ["pkgs"; ""; "/repo"].
Proof.
  apply (split_string_of_join ";" ["pkgs"; ""; "/repo"]).
  - discriminate.
  - repeat constructor.
  - discriminate.
  - vm_compute. reflexivity.
Defined.

Section Lines.

Lemma lines_of_line (l rest : string) :
  contains_char newline l = false →
  lines_of (l +:+ nl +:+ rest) = l :: lines_of rest.
Proof.
  induction l as [|a l IH]; intros Hl.
  - simpl. done.
  - simpl in Hl. apply orb_false_elim in Hl as [Ha Hl].
    rewrite app_cons. simpl. rewrite Ha. by rewrite (IH Hl).
Qed.

Lemma lines_of_tail (tail : string) :
  contains_char newline tail = false →
  lines_of tail = if empty tail then [] else [tail].
Proof.
  induction tail as [|a t IH]; intros Ht; [done |].
  simpl in Ht. apply orb_false_elim in Ht as [Ha Ht].
  simpl. rewrite Ha, (IH Ht). by destruct t.
Qed.

Lemma lines_of_unlines (ls : list string) (tail : string) :
  Forall (λ l, contains_char newline l = false) ls →
  contains_char newline tail = false →
  lines_of (unlines ls +:+ tail) = ls ++ (if empty tail then [] else [tail]).
Proof.
  intros Hls Ht. induction Hls as [|l ls Hl Hls IH]; simpl.
  - by apply lines_of_tail.
  - rewrite !app_assoc_s. rewrite (lines_of_line _ _ Hl). by rewrite IH.
Qed.

(** No line of a text holds a newline. *)
Lemma lines_of_no_newline (content : string) :
  Forall (λ l, contains_char newline l = false) (lines_of content).
Proof.
  induction content as [|a t IH]; simpl; [constructor |].
  destruct (Ascii.eqb a newline) eqn:Ha; [by constructor |].
  destruct (lines_of t) as [|l ls].
  - repeat constructor. simpl. by rewrite Ha.
  - inversion IH; subst. constructor; [| done]. simpl. by rewrite Ha.
Qed.

End Lines.

(** X6: on a file that opens and is made of the lines [ls], each followed by
    a newline, and maybe a last line [tail] without one, [read_file] returns,
    in order, those of the lines that are not empty and do not start with
    [#]; it writes nothing to the standard output. *)
Theorem read_file_keeps_lines (fs : filesystem) (st : process_state)
    (file_path : string) (ls : list string) (tail : string) :
  fs_open fs file_path = Some (unlines ls +:+ tail) →
  Forall (λ l, contains_char newline l = false) ls →
  contains_char newline tail = false →
  (read_file fs st file_path).1
  = Returned (filter (λ l, retained l = true)
                     (ls ++ (if empty tail then [] else [tail]))) ∧
  stdout (read_file fs st file_path).2 = stdout st.
Proof.
  intros Hopen Hls Ht.
  rewrite (read_file_lines _ _ _ _ Hopen). simpl.
  by rewrite lines_of_unlines.
Qed.

Lemma read_file_keeps_lines_witness :
  (read_file (fs_of [("/c", unlines ["# comment"; ""; "foo"] +:+ "bar")])
     initial_state "/c").1
  = Returned (filter (λ l, retained l = true)
                     (["# comment"; ""; "foo"] ++ (if empty "bar" then [] else ["bar"]))) ∧
  stdout (read_file (fs_of [("/c", unlines ["# comment"; ""; "foo"] +:+ "bar")])
            initial_state "/c").2 = stdout initial_state.
Proof.
  apply (read_file_keeps_lines
           (fs_of [("/c", unlines ["# comment"; ""; "foo"] +:+ "bar")])
           initial_state "/c" ["# comment"; ""; "foo"] "bar").
  - reflexivity.
  - repeat constructor.
  - reflexivity.
Defined.

(** X7: whatever the file holds, every line that [read_file] returns is
    non-empty, does not start with [#] and holds no newline. *)
Theorem read_file_lines_are_clean (fs : filesystem) (st : process_state)
    (file_path content : string) :
  fs_open fs file_path = Some content →
  ∃ lines,
    (read_file fs st file_path).1 = Returned lines ∧
    Forall (λ l, l ≠ "" ∧ (∀ rest, l ≠ String hash rest) ∧
                 contains_char newline l = false) lines.
Proof.
  intros Hopen. rewrite (read_file_lines _ _ _ _ Hopen). simpl.
  eexists. split; [done |].
  apply Forall_forall. intros l Hl.
  apply list_elem_of_filter in Hl as [Hret Hin].
  apply retained_spec in Hret as [Hne Hhash].
  split; [done |]. split; [done |].
  pose proof (lines_of_no_newline content) as Hall.
  rewrite Forall_forall in Hall. by apply Hall.
Qed.

Lemma read_file_lines_are_clean_witness :
  ∃ lines,
    (read_file (fs_of [("/c", sources_conf)]) initial_state "/c").1
    = Returned lines ∧
    Forall (λ l, l ≠ "" ∧ (∀ rest, l ≠ String hash rest) ∧
                 contains_char newline l = false) lines.
Proof.
  apply (read_file_lines_are_clean (fs_of [("/c", sources_conf)]) initial_state
           "/c" sources_conf).
  reflexivity.
Defined.

(** X8: when the configuration file cannot be opened, [get_pkg_sources] and
    [get_pkg_source_list] do not return: the message of [read_file] is
    written to the standard output and the process ends with status 2. *)
Theorem get_pkg_sources_open_failure (config_path : string) (fs : filesystem)
    (st : process_state) :
  fs_open fs config_path = None →
  (get_pkg_sources config_path fs st).1 = Exited 2 ∧
  stdout (get_pkg_sources config_path fs st).2
  = stdout st +:+ "File [" +:+ config_path +:+ " can't be opened!" +:+ nl ∧
  (get_pkg_source_list config_path fs st).1 = Exited 2 ∧
  stdout (get_pkg_source_list config_path fs st).2
  = stdout st +:+ "File [" +:+ config_path +:+ " can't be opened!" +:+ nl.
Proof.
  intros H. unfold get_pkg_sources, get_pkg_source_list, read_file.
  rewrite H. done.
Qed.

Lemma get_pkg_sources_open_failure_witness :
  (get_pkg_sources "/etc/birb-sources.conf" (fs_of []) initial_state).1 = Exited 2 ∧
  stdout (get_pkg_sources "/etc/birb-sources.conf" (fs_of []) initial_state).2
  = stdout initial_state +:+ "File [" +:+ "/etc/birb-sources.conf" +:+
    " can't be opened!" +:+ nl ∧
  (get_pkg_source_list "/etc/birb-sources.conf" (fs_of []) initial_state).1
  = Exited 2 ∧
  stdout (get_pkg_source_list "/etc/birb-sources.conf" (fs_of []) initial_state).2
  = stdout initial_state +:+ "File [" +:+ "/etc/birb-sources.conf" +:+
    " can't be opened!" +:+ nl.
Proof.
  apply (get_pkg_sources_open_failure "/etc/birb-sources.conf" (fs_of [])
           initial_state).
  reflexivity.
Defined.

Lemma get_pkg_sources_loop_short (repository_lines : list string) :
  ∀ sources,
    Forall (λ l, ∃ fields, split_string l ";" = Returned fields) repository_lines →
    Exists (λ l, ∃ fields, split_string l ";" = Returned fields ∧
                           length fields < 3) repository_lines →
    get_pkg_sources_loop repository_lines sources = Undefined.
Proof.
  induction repository_lines as [|l rest IH]; intros sources Hall Hex.
  - inversion Hex.
  - inversion Hall as [|? ? [fields Hsplit] Hrest]; subst.
    simpl. rewrite Hsplit. simpl.
    destruct fields as [|f0 [|f1 [|f2 more]]]; try done.
    simpl. apply IH; [done |].
    inversion Hex as [? ? (fields' & Hsplit' & Hlen) | ]; subst; [| done].
    rewrite Hsplit in Hsplit'. injection Hsplit' as <-. simpl in Hlen. lia.
Qed.

(** X9: when the lines that [read_file] keeps all split, and one of them
    into fewer than three fields, [get_pkg_sources] reads a [std::vector]
    past its end: the behaviour is undefined. *)
Theorem get_pkg_sources_short_line (config_path : string) (fs : filesystem)
    (st : process_state) (content : string) :
  fs_open fs config_path = Some content →
  Forall (λ l, ∃ fields, split_string l ";" = Returned fields)
         (filter (λ l, retained l = true) (lines_of content)) →
  Exists (λ l, ∃ fields, split_string l ";" = Returned fields ∧ length fields < 3)
         (filter (λ l, retained l = true) (lines_of content)) →
  (get_pkg_sources config_path fs st).1 = Undefined.
Proof.
  intros Hopen Hall Hex. unfold get_pkg_sources.
  rewrite (read_file_lines _ _ _ _ Hopen). simpl.
  by apply get_pkg_sources_loop_short.
Qed.

Lemma get_pkg_sources_short_line_witness :
  (get_pkg_sources "/etc/birb-sources.conf"
     (fs_of [("/etc/birb-sources.conf", conf_empty_path)]) initial_state).1
  = Undefined.
Proof.
  apply (get_pkg_sources_short_line "/etc/birb-sources.conf"
           (fs_of [("/etc/birb-sources.conf", conf_empty_path)]) initial_state
           conf_empty_path).
  - reflexivity.
  - vm_compute. repeat constructor.
    + by exists ["pkgsA"; "https://x"; "/repo/a"].
    + by exists ["pkgsB"; "https://y"].
  - vm_compute. apply Exists_cons_tl, Exists_cons_hd.
    exists ["pkgsB"; "https://y"]. split; [reflexivity | simpl; lia].
Defined.

Lemma split_string_fuel_cuts_concat (f0 f1 f2 : string) :
  contains_char ";" f0 = false → contains_char ";" f1 = false →
  contains_char ";" f2 = false → f2 ≠ "" →
  (size (f0 +:+ ";" +:+ f1 +:+ ";" +:+ f2) < SizeT.npos)%N →
  split_string (f0 +:+ ";" +:+ f1 +:+ ";" +:+ f2) ";" = Returned [f0; f1; f2].
Proof.
  intros H0 H1 H2 Hne Hsz.
  apply (cuts_split_string ";"); [done | done |].
  apply (cuts_of_join ";" [f0; f1; f2]); [done | by repeat constructor |].
  simpl. congruence.
Qed.

Section WriteRead.

Lemma writable_line (r : pkg_source) :
  writable r → (size (config_line r) < SizeT.npos)%N →
  split_string (config_line r) ";" = Returned [name r; url r; path r] ∧
  retained (config_line r) = true ∧
  contains_char newline (config_line r) = false.
Proof.
  intros (Hn1 & Hn2 & Hu1 & Hu2 & Hp1 & Hp2 & Hpath & Hhash) Hsz.
  split; [| split].
  - by apply split_string_fuel_cuts_concat.
  - apply retained_spec. unfold config_line. split.
    + destruct (name r); [| done]. rewrite app_empty_l. done.
    + intros rest Hrest. destruct (name r) as [|a n] eqn:Hname.
      * rewrite app_empty_l in Hrest. done.
      * rewrite app_cons in Hrest. injection Hrest as -> _.
        by destruct (Hhash n).
  - unfold config_line. rewrite !contains_char_app, Hn2, Hu2, Hp2. done.
Qed.

Lemma get_pkg_sources_loop_written (rs : list pkg_source) :
  ∀ sources,
    Forall (λ r, writable r ∧ (size (config_line r) < SizeT.npos)%N) rs →
    get_pkg_sources_loop (config_line <$> rs) sources = Returned (sources ++ rs).
Proof.
  induction rs as [|r rs IH]; intros sources Hall; simpl.
  - by rewrite app_nil_r.
  - inversion Hall as [|? ? [Hw Hsz] Hrest]; subst.
    destruct (writable_line r Hw Hsz) as (-> & _ & _). simpl.
    rewrite IH by done. destruct r. by rewrite <- app_assoc.
Qed.

End WriteRead.

(** X10: a configuration file written from records, one line
    [name;url;path] per record, is read back by [get_pkg_sources] as the same
    records in the same order, provided no field holds a semicolon or a
    newline, no path is empty and no name starts with [#]. *)
Theorem get_pkg_sources_reads_written (config_path : string) (fs : filesystem)
    (st : process_state) (rs : list pkg_source) :
  fs_open fs config_path = Some (unlines (config_line <$> rs)) →
  Forall (λ r, writable r ∧ (size (config_line r) < SizeT.npos)%N) rs →
  (get_pkg_sources config_path fs st).1 = Returned rs.
Proof.
  intros Hopen Hall. unfold get_pkg_sources.
  rewrite (read_file_lines _ _ _ _ Hopen). simpl.
  assert (Forall (λ l, retained l = true ∧ contains_char newline l = false)
                 (config_line <$> rs)) as Hlines.
  { apply Forall_fmap. eapply Forall_impl; [exact Hall |].
    intros r [Hw Hsz]. simpl. by destruct (writable_line r Hw Hsz) as (_ & ? & ?). }
  rewrite <- (app_empty_r (unlines _)).
  rewrite lines_of_unlines;
    [| eapply Forall_impl; [exact Hlines | by intros ? [_ ?]] | done].
  simpl. rewrite app_nil_r.
  assert (filter (λ l, retained l = true) (config_line <$> rs) = config_line <$> rs)
    as ->.
  { clear Hopen Hall. induction Hlines as [|l ls [Hr _] _ IH]; [done |].
    rewrite filter_cons_True by done. by rewrite IH. }
  by rewrite get_pkg_sources_loop_written.
Qed.

Lemma get_pkg_sources_reads_written_witness :
  (get_pkg_sources "/etc/birb-sources.conf"
     (fs_of [("/etc/birb-sources.conf", unlines (config_line <$> three_repos))])
     initial_state).1 = Returned three_repos.
Proof.
  apply (get_pkg_sources_reads_written "/etc/birb-sources.conf"
           (fs_of [("/etc/birb-sources.conf", unlines (config_line <$> three_repos))])
           initial_state three_repos).
  - reflexivity.
  - repeat constructor; simpl; try reflexivity; try discriminate.
Defined.

(** X11: [locate_pkg_repo] returns a record or
    [std::filesystem::filesystem_error] leaves it.  A record it returns is one
    of the given records, with its [seed.sh] there as a regular file, or it is
    the default record; so when [is_valid] accepts a returned record, it is a
    given record and its build script is there. *)
Theorem locate_pkg_repo_result (fs : filesystem) (pkg_name : string)
    (package_sources : list pkg_source) :
  ((∃ s, locate_pkg_repo fs pkg_name package_sources = Returned s) ∨
   locate_pkg_repo fs pkg_name package_sources = Thrown filesystem_error) ∧
  (∀ s, locate_pkg_repo fs pkg_name package_sources = Returned s →
        (s ∈ package_sources ∧ has_seed fs pkg_name s) ∨ s = pkg_source_default) ∧
  (∀ s, locate_pkg_repo fs pkg_name package_sources = Returned s →
        is_valid s = true →
        s ∈ package_sources ∧ has_seed fs pkg_name s).
Proof.
  assert (∀ s, locate_pkg_repo fs pkg_name package_sources = Returned s →
               (s ∈ package_sources ∧ has_seed fs pkg_name s) ∨
               s = pkg_source_default) as H.
  { intros s.
    destruct (first_stop fs pkg_name package_sources)
      as [Hall | (before & r & after & -> & Hb & [Hr | Hr])].
    - rewrite <- (app_nil_r package_sources).
      rewrite locate_pkg_repo_skip by done. simpl. intros [= <-]. by right.
    - rewrite locate_pkg_repo_skip by done.
      rewrite (proj1 (locate_pkg_repo_cons fs pkg_name r after) Hr).
      intros [= <-]. left. split; [| done].
      apply elem_of_app. right. apply list_elem_of_here.
    - rewrite locate_pkg_repo_skip by done.
      by rewrite (proj2 (proj2 (locate_pkg_repo_cons fs pkg_name r after)) Hr). }
  split; [| split; [done |]].
  - destruct (first_stop fs pkg_name package_sources)
      as [Hall | (before & r & after & -> & Hb & [Hr | Hr])].
    + left. exists pkg_source_default. rewrite <- (app_nil_r package_sources).
      by rewrite locate_pkg_repo_skip.
    + left. exists r. rewrite locate_pkg_repo_skip by done.
      by apply locate_pkg_repo_cons.
    + right. rewrite locate_pkg_repo_skip by done.
      by apply locate_pkg_repo_cons.
  - intros s Hs Hvalid. destruct (H s Hs) as [? | ->]; done.
Qed.

Lemma locate_pkg_repo_result_witness :
  mk_pkg_source "b" "https://b" "/r" ∈ three_repos ∧
  has_seed (fs_of [(seed_sh, "")]) "p" (mk_pkg_source "b" "https://b" "/r").
Proof.
  apply (proj2 (proj2 (locate_pkg_repo_result (fs_of [(seed_sh, "")]) "p"
                         three_repos))).
  - vm_compute. reflexivity.
  - reflexivity.
Defined.

(** X12: searching two lists of records one after the other: when some
    record of the first list has the build script, or makes the status query
    fail, the search ends within the first list and the second plays no part;
    when every record of the first list is skipped, the outcome is that of the
    second list alone. *)
Theorem locate_pkg_repo_app (fs : filesystem) (pkg_name : string)
    (first second : list pkg_source) :
  (Exists (λ r, has_seed fs pkg_name r ∨ status_fails fs pkg_name r) first →
   locate_pkg_repo fs pkg_name (first ++ second) = locate_pkg_repo fs pkg_name first) ∧
  (Forall (no_seed fs pkg_name) first →
   locate_pkg_repo fs pkg_name (first ++ second) = locate_pkg_repo fs pkg_name second).
Proof.
  split; [| apply locate_pkg_repo_skip].
  induction first as [|s rest IH]; intros Hex; [inversion Hex |].
  change ((s :: rest) ++ second) with (s :: (rest ++ second)).
  destruct (locate_pkg_repo_cons fs pkg_name s rest) as (Hhit & Hskip & Hfail).
  destruct (locate_pkg_repo_cons fs pkg_name s (rest ++ second))
    as (Hhit' & Hskip' & Hfail').
  destruct (seed_cases fs pkg_name s) as [Hs | [Hs | Hs]].
  - by rewrite (Hhit Hs), (Hhit' Hs).
  - rewrite (Hskip Hs), (Hskip' Hs). apply IH.
    inversion Hex as [? ? [Hh | Hf] | ]; subst; [| | done].
    + by destruct (no_seed_not_has_seed fs pkg_name s Hs).
    + apply status_fails_throws in Hf. destruct Hs as [He | [He _]]; congruence.
  - by rewrite (Hfail Hs), (Hfail' Hs).
Qed.

Lemma locate_pkg_repo_app_witness :
  locate_pkg_repo (fs_a_denied [(seed_sh, "")]) "p" (three_repos ++ three_repos)
  = locate_pkg_repo (fs_a_denied [(seed_sh, "")]) "p" three_repos.
Proof.
  apply (proj1 (locate_pkg_repo_app (fs_a_denied [(seed_sh, "")]) "p"
                  three_repos three_repos)).
  apply Exists_cons_hd. right. reflexivity.
Defined.

Section ReadPkgVariableMore.

Lemma erase_outcome (s : string) (pos n : N) :
  (∃ s', erase s pos n = Returned s') ∨ erase s pos n = Thrown out_of_range.
Proof. unfold erase. destruct (size s <? pos)%N; eauto. Qed.

Lemma clean_up_outcome (var_line var_name : string) :
  (∃ v, clean_up var_line var_name = Returned v) ∨
  clean_up var_line var_name = Thrown out_of_range.
Proof.
  unfold clean_up.
  destruct (erase_outcome var_line 0 (SizeT.add (size var_name) 2)) as [[s' ->] | ->];
    [| by right].
  simpl. apply erase_outcome.
Qed.





End ReadPkgVariableMore.

(** X13: [read_pkg_variable] ends in one of two ways: it returns a string,
    or [std::out_of_range] leaves it.  It never ends the process, and it
    writes nothing to the standard output. *)
Theorem read_pkg_variable_returns_or_throws (fs : filesystem)
    (st : process_state) (pkg_name var_name repo_path : string) :
  (size var_name + 2 < SizeT.modulus)%N →
  ((∃ v, (read_pkg_variable fs st pkg_name var_name repo_path).1 = Returned v) ∨
   (read_pkg_variable fs st pkg_name var_name repo_path).1 = Thrown out_of_range) ∧
  stdout (read_pkg_variable fs st pkg_name var_name repo_path).2 = stdout st.
Proof.
  intros Hfits.
  destruct (cache_hit_or_miss st (pkg_name +:+ var_name)) as [(v & Hv & Hne) | Hmiss].
  - rewrite (read_pkg_variable_hit _ _ _ _ _ _ Hv Hne). simpl. eauto.
  - rewrite (read_pkg_variable_miss _ _ _ _ _ Hmiss).
    destruct (fs_open fs _) as [content|]; [| simpl; eauto].
    destruct (scan_loop_ends var_name (S (String.length content)) Hfits content "")
      as [var_line ->]; [lia |].
    simpl.
    destruct (clean_up_outcome var_line var_name) as [[v ->] | ->]; simpl; eauto.
Qed.

Lemma read_pkg_variable_returns_or_throws_witness :
  ((∃ v, (read_pkg_variable (fs_of [(seed_sh, script_no_depends)]) initial_state
            "p" "DEPENDS" "/r").1 = Returned v) ∨
   (read_pkg_variable (fs_of [(seed_sh, script_no_depends)]) initial_state
      "p" "DEPENDS" "/r").1 = Thrown out_of_range) ∧
  stdout (read_pkg_variable (fs_of [(seed_sh, script_no_depends)]) initial_state
            "p" "DEPENDS" "/r").2 = stdout initial_state.
Proof.
  apply (read_pkg_variable_returns_or_throws
           (fs_of [(seed_sh, script_no_depends)]) initial_state "p" "DEPENDS" "/r").
  reflexivity.
Defined.

(** X14: [read_pkg_variable] touches one cache entry only, the one under
    [pkg_name ++ var_name]; and whenever it returns, the string it returns is
    the one the cache then holds under that key. *)
Theorem read_pkg_variable_cache_frame (fs : filesystem) (st : process_state)
    (pkg_name var_name repo_path : string) :
  (∀ k, k ≠ pkg_name +:+ var_name →
        var_cache (read_pkg_variable fs st pkg_name var_name repo_path).2 !! k
        = var_cache st !! k) ∧
  (∀ v, (read_pkg_variable fs st pkg_name var_name repo_path).1 = Returned v →
        var_cache (read_pkg_variable fs st pkg_name var_name repo_path).2
          !! (pkg_name +:+ var_name) = Some v).
Proof.
  assert (∀ k, k ≠ pkg_name +:+ var_name →
               (cache_index (var_cache st) (pkg_name +:+ var_name)).2 !! k
               = var_cache st !! k) as Hframe.
  { intros k Hk. unfold cache_index.
    destruct (var_cache st !! (pkg_name +:+ var_name)); simpl; [done |].
    by rewrite lookup_insert_ne. }
  destruct (cache_hit_or_miss st (pkg_name +:+ var_name)) as [(c & Hc & Hne) | Hmiss].
  - rewrite (read_pkg_variable_hit _ _ _ _ _ _ Hc Hne). simpl.
    split; [done |]. by intros v [= <-].
  - rewrite (read_pkg_variable_miss _ _ _ _ _ Hmiss).
    pose proof (cache_index_inserts (var_cache st) (pkg_name +:+ var_name)) as Hin.
    apply cache_miss_index in Hmiss. rewrite Hmiss in Hin.
    destruct (fs_open fs _) as [content|]; [| simpl; split; [done |]; by intros v [= <-]].
    destruct (_ ≫= _); simpl; (split; [| by intros v' [= <-]; rewrite ?lookup_insert_eq]);
      try done.
    intros k Hk. rewrite lookup_insert_ne by done. by apply Hframe.
Qed.

Lemma read_pkg_variable_cache_frame_witness :
  var_cache (read_pkg_variable (fs_of [(seed_sh, script_foo_bar)]) initial_state
               "p" "DEPENDS" "/r").2 !! ("p" +:+ "DEPENDS") = Some "foo bar".
Proof.
  apply (proj2 (read_pkg_variable_cache_frame
                  (fs_of [(seed_sh, script_foo_bar)]) initial_state
                  "p" "DEPENDS" "/r")).
  vm_compute. reflexivity.
Defined.

(** X15: [read_pkg_variable] opens no file when a non-empty value is cached
    under the key, and leaves the whole state as it is; otherwise it tries to
    open one file, [repo_path/pkg_name/seed.sh], and no other. *)
Theorem read_pkg_variable_file_access (fs : filesystem) (st : process_state)
    (pkg_name var_name repo_path : string) :
  ((∃ v, var_cache st !! (pkg_name +:+ var_name) = Some v ∧ v ≠ "") →
   (read_pkg_variable fs st pkg_name var_name repo_path).2 = st) ∧
  (cache_miss st (pkg_name +:+ var_name) →
   open_calls (read_pkg_variable fs st pkg_name var_name repo_path).2
   = open_calls st ++ [repo_path +:+ "/" +:+ pkg_name +:+ "/seed.sh"]).
Proof.
  split.
  - intros (v & Hv & Hne). by rewrite (read_pkg_variable_hit _ _ _ _ _ _ Hv Hne).
  - intros Hmiss. rewrite (read_pkg_variable_miss _ _ _ _ _ Hmiss).
    destruct (fs_open fs _); [| done]. by destruct (_ ≫= _).
Qed.

Lemma read_pkg_variable_file_access_witness :
  open_calls (read_pkg_variable (fs_of []) initial_state "p" "DEPENDS" "/r").2
  = open_calls initial_state ++ ["/r" +:+ "/" +:+ "p" +:+ "/seed.sh"].
Proof.
  apply (proj2 (read_pkg_variable_file_access (fs_of []) initial_state
                  "p" "DEPENDS" "/r")).
  intros v Hv. vm_compute in Hv. discriminate.
Defined.

(** X16: the cache key is the package name followed by the variable name,
    with nothing in between, and the repository path is no part of it.  Once a
    call has returned a non-empty value, every call whose package and variable
    names concatenate to the same string returns that value, whatever its
    repository path and whatever the files hold. *)
Theorem read_pkg_variable_key_collision (fs fs' : filesystem)
    (st st' : process_state)
    (pkg_name var_name repo_path pkg_name' var_name' repo_path' v : string) :
  pkg_name +:+ var_name = pkg_name' +:+ var_name' →
  v ≠ "" →
  read_pkg_variable fs st pkg_name var_name repo_path = (Returned v, st') →
  read_pkg_variable fs' st' pkg_name' var_name' repo_path' = (Returned v, st').
Proof.
  intros Hkey Hne Hfirst.
  apply read_pkg_variable_hit; [| done]. rewrite <- Hkey.
  destruct (cache_hit_or_miss st (pkg_name +:+ var_name)) as [(c & Hc & Hcne) | Hmiss].
  - rewrite (read_pkg_variable_hit _ _ _ _ _ _ Hc Hcne) in Hfirst.
    by injection Hfirst as -> ->.
  - rewrite (read_pkg_variable_miss _ _ _ _ _ Hmiss) in Hfirst.
    destruct (fs_open fs _).
    + destruct (_ ≫= _); try done.
      injection Hfirst as -> <-. simpl. apply lookup_insert_eq.
    + by injection Hfirst as <- _.
Qed.

Lemma read_pkg_variable_key_collision_witness :
  read_pkg_variable (fs_of [])
    (read_pkg_variable (fs_of [(seed_sh, script_foo_bar)]) initial_state
       "p" "DEPENDS" "/r").2
    "pDEP" "ENDS" "/elsewhere"
  = (Returned "foo bar",
     (read_pkg_variable (fs_of [(seed_sh, script_foo_bar)]) initial_state
        "p" "DEPENDS" "/r").2).
Proof.
  apply (read_pkg_variable_key_collision
           (fs_of [(seed_sh, script_foo_bar)]) (fs_of []) initial_state _
           "p" "DEPENDS" "/r" "pDEP" "ENDS" "/elsewhere" "foo bar").
  - reflexivity.
  - discriminate.
  - vm_compute. reflexivity.
Defined.





(** X19: [print] adds three lines to the standard output, the name, the url
    and the path, each after its label and a tab; read line by line, the
    added text gives these three lines back when no attribute holds a
    newline.  The cache is not touched. *)
Theorem print_three_lines (s : pkg_source) (st : process_state) :
  contains_char newline (name s) = false →
  contains_char newline (url s) = false →
  contains_char newline (path s) = false →
  ∃ text,
    stdout (print s st) = stdout st +:+ text ∧
    lines_of text = ["Name: " +:+ String tab "" +:+ name s;
                     "URL: " +:+ String tab "" +:+ url s;
                     "Path: " +:+ String tab "" +:+ path s] ∧
    var_cache (print s st) = var_cache st.
Proof.
  intros Hn Hu Hp.
  exists (unlines ["Name: " +:+ String tab "" +:+ name s;
                   "URL: " +:+ String tab "" +:+ url s;
                   "Path: " +:+ String tab "" +:+ path s]).
  split; [| split; [| done]].
  - unfold print, cout. simpl. by rewrite !app_assoc_s.
  - rewrite <- (app_empty_r (unlines _)).
    rewrite lines_of_unlines; [by rewrite app_nil_r | | done].
    repeat constructor; rewrite !contains_char_app; simpl;
      by rewrite ?Hn, ?Hu, ?Hp.
Qed.

Lemma print_three_lines_witness :
  ∃ text,
    stdout (print (mk_pkg_source "b" "https://b" "/r") initial_state)
    = stdout initial_state +:+ text ∧
    lines_of text = ["Name: " +:+ String tab "" +:+ "b";
                     "URL: " +:+ String tab "" +:+ "https://b";
                     "Path: " +:+ String tab "" +:+ "/r"] ∧
    var_cache (print (mk_pkg_source "b" "https://b" "/r") initial_state)
    = var_cache initial_state.
Proof.
  apply (print_three_lines (mk_pkg_source "b" "https://b" "/r") initial_state);
    reflexivity.
Defined.
